(** * Decagon driver ([main.py]): data assembly, ranking evaluator, training loop

    A shallow embedding of [src/main.py] and the properties its
    specification states about it.

    Conventions.
    - Python exceptions are values of [exn]; a computation that may raise
      has type [result A].  [SamplingExhaustedError] is the error the
      specification gives the edge split partitioner.
    - A scipy sparse matrix is a [matrix]: its shape and the finite map of
      its stored entries (an absent key reads as 0).
    - Python dictionaries whose iteration order is irrelevant are [gmap]s;
      dictionaries that are iterated are association lists.
    - Floating-point scores are idealised as rationals extended with NaN
      ([score]); rounding is not modelled.  A vector of 0/1 labels is a
      list of booleans.
    - Sources of randomness are explicit streams with a read position. *)

Set Warnings "-abstract-large-number".
From Stdlib Require Import ZArith QArith Qround Lia Lqa.
From Stdlib Require Import Sorting.Sorted.
From stdpp Require Import gmap strings list fin_maps.

Local Open Scope Z_scope.
Local Open Scope nat_scope.

(** ** Exceptions *)

Inductive exn : Type :=
| KeyError
| IndexError
| ValueError
| AssertionError (msg : string)
| SamplingExhaustedError.

Inductive result (A : Type) : Type :=
| Ok (a : A)
| Raise (e : exn).
Arguments Ok {A} a.
Arguments Raise {A} e.

Global Instance result_ret : MRet result := @Ok.
Global Instance result_bind : MBind result :=
  λ A B f r, match r with Ok a => f a | Raise e => Raise e end.

Definition raises {A} (r : result A) : Prop := ∃ e, r = Raise e.

(** A [for] loop whose body may raise. *)
Fixpoint foldM {A S : Type} (f : S → A → result S) (l : list A) (s : S)
  : result S :=
  match l with
  | [] => Ok s
  | x :: l' => s' ← f s x; foldM f l' s'
  end.

(** [d[k]] on a dictionary ([KeyError] when absent) and [l[i]] on a list
    ([IndexError] when out of range; indices here are never negative). *)
Definition dict_get `{Countable K} {V} (d : gmap K V) (k : K) : result V :=
  match d !! k with Some v => Ok v | None => Raise KeyError end.

Definition list_get {V} (l : list V) (i : nat) : result V :=
  match l !! i with Some v => Ok v | None => Raise IndexError end.

Fixpoint assoc_get {V} (d : list (string * V)) (k : string) : result V :=
  match d with
  | [] => Raise KeyError
  | (k', v) :: d' => if decide (k' = k) then Ok v else assoc_get d' k
  end.

(** ** Random streams *)

Record rng (A : Type) : Type := Rng { stream : nat → A; pos : nat }.
Arguments Rng {A} stream pos.
Arguments stream {A} r.
Arguments pos {A} r.

Definition draw {A} (r : rng A) : A * rng A :=
  (stream r (pos r), Rng (stream r) (S (pos r))).

(** ** Sparse matrices *)

Record matrix : Type := Matrix {
  shape : nat * nat;
  entries : gmap (nat * nat) Z
}.

Definition zeros (r c : nat) : matrix := Matrix (r, c) ∅.

Definition in_bounds (m : matrix) (u v : nat) : bool :=
  (u <? (shape m).1) && (v <? (shape m).2).

Definition entry (m : matrix) (u v : nat) : Z :=
  default 0%Z (entries m !! (u, v)).

(** [m[u,v]] *)
Definition getitem (m : matrix) (u v : nat) : result Z :=
  if in_bounds m u v then Ok (entry m u v) else Raise IndexError.

(** [m[u,v] = 1] *)
Definition set_one (m : matrix) (u v : nat) : matrix :=
  Matrix (shape m) (<[(u, v) := 1%Z]> (entries m)).

Definition setitem_one (m : matrix) (u v : nat) : result matrix :=
  if in_bounds m u v then Ok (set_one m u v) else Raise IndexError.

(** [m.transpose(copy=True)] *)
Definition transpose (m : matrix) : matrix :=
  Matrix (prod_swap (shape m)) (kmap prod_swap (entries m)).

Definition sum_Z (l : list Z) : Z := foldr Z.add 0%Z l.

(** [np.array(m.sum(axis=0)).squeeze()]: the vector of column sums. *)
Definition sum_axis0 (m : matrix) : list Z :=
  map (λ j, sum_Z (map (λ i, entry m i j) (seq 0 (shape m).1)))
      (seq 0 (shape m).2).

(** A dense array given by its entries, as a sparse matrix. *)
Definition csr_of_dense (r c : nat) (f : nat → nat → Z) : matrix :=
  Matrix (r, c)
    (list_to_map
       (flat_map
          (λ i, flat_map
                  (λ j, if decide (f i j = 0%Z) then [] else [((i, j), f i j)])
                  (seq 0 c))
          (seq 0 r))).

(** ** [load_decagon_data] *)

Inductive decoder : Type := bilinear | dedicom.

(** What the function reads from outside itself.  [nx_gene_adj] is the
    adjacency matrix of [nx.planted_partition_graph(360, 53, 0.1, 0.01,
    seed=42)]; [np_random] is NumPy's global generator after
    [np.random.seed(0)], read through [randn]; [py_random] is the global
    generator of Python's [random] module, read through
    [randint(0, 1000)].  The remaining fields are what the CSV loaders of
    [polypharmacy.utility] return. *)
Record environment : Type := Environment {
  nx_gene_adj : matrix;
  np_random : rng Q;
  py_random : rng Z;
  ppi_adj : matrix;
  gene2idx : gmap string nat;
  drug2proteins : list (string * list string);
  drug2drug : list (string * (string * string));
  drug2se : list (string * list string)
}.

Record raw_data : Type := RawData {
  n_genes : nat;
  n_drugs : nat;
  gene_adj : matrix;
  gene_degrees : list Z;
  gene_drug_adj : matrix;
  drug_gene_adj : matrix;
  drug_drug_adj_list : list matrix;
  drug_degrees_list : list (list Z)
}.

(** [itertools.combinations(l, 2)] *)
Fixpoint combinations2 (l : list nat) : list (nat * nat) :=
  match l with
  | [] => []
  | x :: l' => map (pair x) l' ++ combinations2 l'
  end.

(** Lines 72-74: the inner loop over drug pairs. *)
Fixpoint fill_pairs (ps : list (nat * nat)) (py : rng Z) (mat : matrix)
  : matrix * rng Z :=
  match ps with
  | [] => (mat, py)
  | (d1, d2) :: ps' =>
      let '(r, py') := draw py in
      fill_pairs ps' py'
        (if (r <? 3)%Z then set_one (set_one mat d1 d2) d2 d1 else mat)
  end.

(** Lines 68-75: one matrix per synthetic side effect. *)
Fixpoint dummy_drug_drug (rel_types drugs : nat) (py : rng Z)
  : list matrix * rng Z :=
  match rel_types with
  | 0 => ([], py)
  | S k =>
      let '(mat, py') :=
        fill_pairs (combinations2 (seq 0 drugs)) py (zeros drugs drugs) in
      let '(rest, py'') := dummy_drug_drug k drugs py' in
      (mat :: rest, py'')
  end.

(** Line 63: [(10 * np.random.randn(n_genes, n_drugs) > 15).astype(int)];
    [randn] fills the array in row-major order. *)
Definition dummy_gene_drug (genes drugs : nat) (np : rng Q) : matrix :=
  csr_of_dense genes drugs
    (λ g d, if Qlt_le_dec 15 (10 * stream np (pos np + (g * drugs + d)))%Q
            then 1%Z else 0%Z).

(** Lines 54-76, with the three sizes as arguments. *)
Definition dummy_data (genes drugs rel_types : nat) (env : environment)
  : raw_data :=
  let gene_adj := nx_gene_adj env in
  let gene_drug_adj := dummy_gene_drug genes drugs (np_random env) in
  let drug_drug := (dummy_drug_drug rel_types drugs (py_random env)).1 in
  {| n_genes := genes;
     n_drugs := drugs;
     gene_adj := gene_adj;
     gene_degrees := sum_axis0 gene_adj;
     gene_drug_adj := gene_drug_adj;
     drug_gene_adj := transpose gene_drug_adj;
     drug_drug_adj_list := drug_drug;
     drug_degrees_list := map sum_axis0 drug_drug |}.

(** Lines 95-102: the set of drugs and its enumeration.  A Python set is a
    [gset]; its iteration order is taken to be that of [elements]. *)
Definition all_drugs (env : environment) : gset string :=
  foldl (λ s c, {[c.2.2]} ∪ ({[c.2.1]} ∪ s)) ∅ (drug2drug env).

Definition enumerate_set (s : gset string) : gmap string nat :=
  list_to_map (zip (elements s) (seq 0 (size s))).

(** Lines 108-110. *)
Definition unique_se (env : environment) : gset string :=
  foldl (λ s c, list_to_set c.2 ∪ s) ∅ (drug2se env).

(** Lines 117-126. *)
Definition real_gene_drug (env : environment) (genes drugs : nat)
    (drug2idx : gmap string nat) : result matrix :=
  foldM
    (λ mat dp,
       match drug2idx !! dp.1 with
       | None => Ok mat
       | Some drug_idx =>
           foldM
             (λ mat protein,
                match gene2idx env !! protein with
                | None => Ok mat
                | Some gene_idx => setitem_one mat gene_idx drug_idx
                end)
             dp.2 mat
       end)
    (drug2proteins env) (zeros genes drugs).

(** Lines 136-145: the matrix of one side effect. *)
Definition real_side_effect (env : environment) (drugs : nat)
    (drug2idx : gmap string nat) (se : string) : result matrix :=
  foldM
    (λ mat cs,
       if bool_decide (se ∈ cs.2) then
         dd ← assoc_get (drug2drug env) cs.1;
         match drug2idx !! dd.1, drug2idx !! dd.2 with
         | Some d1_idx, Some d2_idx =>
             mat' ← setitem_one mat d1_idx d2_idx;
             setitem_one mat' d2_idx d1_idx
         | _, _ => Ok mat
         end
       else Ok mat)
    (drug2se env) (zeros drugs drugs).

(** Lines 79-147. *)
Definition real_data (env : environment) : result raw_data :=
  let genes := size (gene2idx env) in
  let gene_adj := ppi_adj env in
  let drug2idx := enumerate_set (all_drugs env) in
  let drugs := size drug2idx in
  gene_drug_adj ← real_gene_drug env genes drugs drug2idx;
  drug_drug ← mapM (real_side_effect env drugs drug2idx)
                   (elements (unique_se env));
  Ok {| n_genes := genes;
        n_drugs := drugs;
        gene_adj := gene_adj;
        gene_degrees := sum_axis0 gene_adj;
        gene_drug_adj := gene_drug_adj;
        drug_gene_adj := transpose gene_drug_adj;
        drug_drug_adj_list := drug_drug;
        drug_degrees_list := map sum_axis0 drug_drug |}.

(** What [load_decagon_data] returns ([feat], built by the absent
    [preprocessing.sparse_to_tuple], is left out). *)
Record decagon_data : Type := DecagonData {
  val_test_size : Q;
  adj_mats_orig : gmap (nat * nat) (list matrix);
  degrees : gmap nat (list (list Z));
  num_feat : gmap nat nat;
  nonzero_feat : gmap nat nat;
  edge_type2dim : gmap (nat * nat) (list (nat * nat));
  edge_type2decoder : gmap (nat * nat) decoder;
  edge_types : gmap (nat * nat) nat;
  num_edge_types : nat
}.

(** Lines 149-197: the representation shared by both branches. *)
Definition assemble (raw : raw_data) : decagon_data :=
  let adj_mats : gmap (nat * nat) (list matrix) :=
    <[(1, 1) := drug_drug_adj_list raw
                ++ map transpose (drug_drug_adj_list raw)]>
    (<[(1, 0) := [drug_gene_adj raw]]>
    (<[(0, 1) := [gene_drug_adj raw]]>
    (<[(0, 0) := [gene_adj raw; transpose (gene_adj raw)]]> ∅))) in
  let edge_types : gmap (nat * nat) nat := length <$> adj_mats in
  {| val_test_size := 5 # 100;
     adj_mats_orig := adj_mats;
     degrees :=
       <[1 := drug_degrees_list raw ++ drug_degrees_list raw]>
       (<[0 := [gene_degrees raw; gene_degrees raw]]> ∅);
     num_feat := <[1 := n_drugs raw]> (<[0 := n_genes raw]> ∅);
     nonzero_feat := <[1 := n_drugs raw]> (<[0 := n_genes raw]> ∅);
     edge_type2dim := (map shape) <$> adj_mats;
     edge_type2decoder :=
       <[(1, 1) := dedicom]> (<[(1, 0) := bilinear]>
       (<[(0, 1) := bilinear]> (<[(0, 0) := bilinear]> ∅)));
     edge_types := edge_types;
     num_edge_types := map_fold (λ _ n acc, n + acc) 0 edge_types |}.

Definition load_decagon_data (use_dummy : bool) (env : environment)
  : result decagon_data :=
  raw ← (if use_dummy then Ok (dummy_data 19080 645 1317 env)
         else real_data env);
  Ok (assemble raw).

(** [b] is the transpose of [a]: swapped shape, mirrored entries. *)
Definition is_transpose (a b : matrix) : Prop :=
  shape b = ((shape a).2, (shape a).1) ∧
  ∀ u v, entry b u v = entry a v u ∧ getitem b u v = getitem a v u.

(** A small real-data environment: three drugs, two side effects. *)
Definition small_env : environment :=
  {| nx_gene_adj := zeros 0 0;
     np_random := Rng (λ _, 0%Q) 0;
     py_random := Rng (λ _, 0%Z) 0;
     ppi_adj := set_one (set_one (zeros 2 2) 0 1) 1 0;
     gene2idx := <["g0" := 0]> (<["g1" := 1]> ∅);
     drug2proteins := [("A", ["g0"]); ("B", ["g0"; "g1"])];
     drug2drug := [("c1", ("A", "B")); ("c2", ("A", "C"));
                   ("c3", ("B", "C"))];
     drug2se := [("c1", ["s1"]); ("c2", ["s2"]); ("c3", ["s2"])] |}.

Definition small_data : decagon_data :=
  Eval vm_compute in
    match load_decagon_data false small_env with
    | Ok d => d
    | Raise _ => assemble (dummy_data 0 0 0 small_env)
    end.

(** The reading of "the degree vector of a node type" as one vector per
    type: every node's count of stored edges arriving at it, summed over
    all relations whose target node type is [t] (the store holds each
    relation in both directions, so these are all relations touching
    [t]).  [n] is the number of nodes of type [t]. *)
Definition vec_add (a b : list Z) : list Z := zip_with Z.add a b.

Definition aggregated_degree (adj : gmap (nat * nat) (list matrix))
    (t n : nat) : list Z :=
  map_fold
    (λ key ms acc,
       if decide (key.2 = t)
       then foldr (λ m acc, vec_add (sum_axis0 m) acc) acc ms
       else acc)
    (replicate n 0%Z) adj.

Definition degrees_aggregated (d : decagon_data) : Prop :=
  ∀ t vs n v,
    degrees d !! t = Some vs → num_feat d !! t = Some n → v ∈ vs →
    v = aggregated_degree (adj_mats_orig d) t n.

(** Both branches hand the same shape of data to the shared tail. *)
Definition raw_consistent (raw : raw_data) : Prop :=
  drug_gene_adj raw = transpose (gene_drug_adj raw) ∧
  gene_degrees raw = sum_axis0 (gene_adj raw) ∧
  drug_degrees_list raw = map sum_axis0 (drug_drug_adj_list raw).

(** A run of the script on synthetic data: [planted] and [randn] are what
    the seeded sources yield (the planted-partition graph with seed 42,
    NumPy after [np.random.seed(0)]); [py] is the state of Python's
    [random] module, which the script never seeds. *)
Definition dummy_run (planted : matrix) (randn : rng Q) (py : rng Z)
  : environment :=
  {| nx_gene_adj := planted;
     np_random := randn;
     py_random := py;
     ppi_adj := zeros 0 0;
     gene2idx := ∅;
     drug2proteins := [];
     drug2drug := [];
     drug2se := [] |}.

(** ** Scores and sorting *)

(** A floating-point score: a rational or NaN. *)
Inductive score : Type := NaN | Fin (q : Q).

(** Python's [<] on floats: false whenever a NaN is involved. *)
Definition score_lt (a b : score) : bool :=
  match a, b with
  | Fin p, Fin q => if Qlt_le_dec p q then true else false
  | _, _ => false
  end.

(** [np.nan_to_num] (a sigmoid is never infinite). *)
Definition nan_to_num (s : score) : Q :=
  match s with NaN => 0%Q | Fin q => q end.

Definition is_nan (s : score) : bool :=
  match s with NaN => true | Fin _ => false end.

(** A stable sort: [before y x] says that [y] has to come strictly before
    [x]; elements that are not ordered by [before] keep their order. *)
Section StableSort.
Context {A : Type} (before : A → A → bool).

Fixpoint insert_sorted (x : A) (l : list A) : list A :=
  match l with
  | [] => [x]
  | y :: l' => if before y x then y :: insert_sorted x l' else x :: l
  end.

Definition stable_sort (l : list A) : list A := foldr insert_sorted [] l.
End StableSort.

(** CPython's [list.sort] ([Objects/listobject.c], Python 3.5 to 3.11) on
    a list of fewer than 64 elements; [lt x y] is the comparison [x < y]
    of the keys.  Such a list is one run: [count_run] finds the run the
    list starts with, weakly ascending or strictly descending (then it is
    reversed), and [binarysort] inserts the remaining elements one by
    one at the place a binary search gives. *)
Section PythonSort.
Context {A : Type} (lt : A → A → bool).

(** The further elements of a descending, respectively ascending run
    whose last element is [prev]. *)
Fixpoint run_descending (prev : A) (l : list A) : nat :=
  match l with
  | [] => 0
  | x :: l' => if lt x prev then S (run_descending x l') else 0
  end.

Fixpoint run_ascending (prev : A) (l : list A) : nat :=
  match l with
  | [] => 0
  | x :: l' => if lt x prev then 0 else S (run_ascending x l')
  end.

(** [count_run]: the length of the initial run and whether it descends. *)
Definition count_run (l : list A) : nat * bool :=
  match l with
  | [] => (0, false)
  | [x] => (1, false)
  | x :: y :: l' =>
      if lt y x then (2 + run_descending y l', true)
      else (2 + run_ascending y l', false)
  end.

(** The binary search of [binarysort] between the indices [l] and [r]:
    [p = l + ((r - l) >> 1)], then [r = p] if [pivot < xs[p]] and
    [l = p + 1] otherwise, while [l < r]. *)
Fixpoint bisect (fuel : nat) (pivot : A) (xs : list A) (l r : nat) : nat :=
  match fuel with
  | 0 => l
  | S fuel' =>
      if l <? r then
        let p := l + (r - l) / 2 in
        match xs !! p with
        | Some x =>
            if lt pivot x then bisect fuel' pivot xs l p
            else bisect fuel' pivot xs (S p) r
        | None => l
        end
      else l
  end.

(** [binarysort]: [run] is the part already in order, [rest] follows. *)
Fixpoint binarysort (run rest : list A) : list A :=
  match rest with
  | [] => run
  | pivot :: rest' =>
      let l := bisect (length run) pivot run 0 (length run) in
      binarysort (take l run ++ pivot :: drop l run) rest'
  end.

Definition list_sort (l : list A) : list A :=
  match l with
  | [] | [_] => l
  | _ =>
      let '(n, descending) := count_run l in
      let run := take n l in
      binarysort (if descending then reverse run else run) (drop n l)
  end.
End PythonSort.

(** [sorted(l, reverse=True, key=itemgetter(0))].  When no key is NaN the
    keys are totally ordered and the result is the one Python documents:
    descending in the first component, equal keys in their original
    order.  With a NaN key, which compares false with everything, the
    result is what the comparisons of CPython's algorithm make of it:
    the list is reversed, sorted by [list.sort] and reversed again.
    (For 64 candidates or more [list.sort] also merges runs; that part
    of it is not modelled, and nothing below relies on the order of such
    a list when it has a NaN key.) *)
Definition sorted_reverse_by_fst {B} (l : list (score * B))
  : list (score * B) :=
  if forallb (λ c, negb (is_nan c.1)) l
  then stable_sort (λ y x, score_lt x.1 y.1) l
  else reverse (list_sort (λ x y, score_lt x.1 y.1) (reverse l)).

(** ** Metrics of scikit-learn, in exact arithmetic *)

Definition Qnat (n : nat) : Q := inject_Z (Z.of_nat n).

(** Samples are pairs of a score and a label; [true] is the label 1. *)
Definition lower_score (y x : Q * bool) : bool :=
  if Qlt_le_dec y.1 x.1 then true else false.

(** [np.argsort(y_score, kind="mergesort")[::-1]] applied to the samples:
    a stable ascending sort, reversed. *)
Definition by_decreasing_score (l : list (Q * bool)) : list (Q * bool) :=
  reverse (stable_sort lower_score l).

(** [_binary_clf_curve]: running counts of true and false positives, read
    off at the last sample of every run of equal scores. *)
Fixpoint clf_curve (tps fps : nat) (l : list (Q * bool)) : list (nat * nat) :=
  match l with
  | [] => []
  | (s, y) :: l' =>
      let tps' := if y then S tps else tps in
      let fps' := if y then fps else S fps in
      match l' with
      | [] => [(fps', tps')]
      | (s', _) :: _ =>
          if Qeq_bool s s' then clf_curve tps' fps' l'
          else (fps', tps') :: clf_curve tps' fps' l'
      end
  end.

(** [np.trapz(y, x)] continued from the point [p]. *)
Fixpoint trapz_from (p : Q * Q) (pts : list (Q * Q)) : Q :=
  match pts with
  | [] => 0%Q
  | q :: pts' => ((q.1 - p.1) * (q.2 + p.2) / 2 + trapz_from q pts')%Q
  end.

(** The sum of [(R_n - R_{n-1}) * P_n] continued from recall [r]. *)
Fixpoint ap_from (n_pos : nat) (r : Q) (pts : list (nat * nat)) : Q :=
  match pts with
  | [] => 0%Q
  | (fps, tps) :: pts' =>
      ((Qnat tps / Qnat n_pos - r) * (Qnat tps / Qnat (tps + fps))
       + ap_from n_pos (Qnat tps / Qnat n_pos) pts')%Q
  end.

Definition count_label (b : bool) (y_true : list bool) : nat :=
  length (filter (λ y, y = b) y_true).

(** [roc_curve]: the false and true positive rates of a point of the
    curve. *)
Definition rates (n_pos n_neg : nat) (p : nat * nat) : Q * Q :=
  (Qnat p.1 / Qnat n_neg, Qnat p.2 / Qnat n_pos)%Q.

(** [metrics.roc_auc_score(y_true, y_score)]: the area under the ROC curve
    by the trapezoidal rule; [ValueError] unless both classes occur. *)
Definition roc_auc_score (y_true : list bool) (y_score : list Q) : result Q :=
  let n_pos := count_label true y_true in
  let n_neg := count_label false y_true in
  if (0 <? n_pos) && (0 <? n_neg) then
    let pts := clf_curve 0 0 (by_decreasing_score (zip y_score y_true)) in
    Ok (trapz_from (0%Q, 0%Q) (map (rates n_pos n_neg) pts))
  else Raise ValueError.

(** [metrics.average_precision_score(y_true, y_score)]: the exact value
    of the sum that scikit-learn evaluates in doubles. *)
Definition average_precision_score (y_true : list bool) (y_score : list Q)
  : Q :=
  ap_from (count_label true y_true) 0%Q
    (clf_curve 0 0 (by_decreasing_score (zip y_score y_true))).

(** ** The ranking evaluator [get_accuracy_scores] *)

(** What a feed dictionary holds.  Placeholders are named by their key in
    the [placeholders] dictionary. *)
Inductive value : Type :=
| VInt (n : Z)
| VFloat (q : Q)
| VEdges (batch : list (nat * nat)).

(** The local lists of the function while the two loops run. *)
Record tally : Type := Tally {
  preds : list score;
  preds_neg : list score;
  actual : list nat;
  predicted : list (score * nat);
  edge_ind : nat
}.

Definition edge_lists : Type := gmap (nat * nat) (list (list (nat * nat))).

Section Evaluator.
(** Raw model outputs, the squashing function of line 206, and the
    library function [rank_metrics.apk]. *)
Context {F : Type} (sigmoid : F → score).
Context (apk : list nat → list nat → nat → Q).
(** [sess.run(opt.predictions, feed_dict=...)]: the matrix [rec], whose
    indexing fails outside its shape. *)
Context (sess_run : gmap string value → result (nat → nat → option F)).
(** The globals [minibatch.edge_type2idx] and [adj_mats_orig]. *)
Context (edge_type2idx : gmap (nat * nat * nat) nat).
Context (adj_mats : gmap (nat * nat) (list matrix)).

(** [rec[u, v]] *)
Definition rec_get (rec : nat → nat → option F) (u v : nat) : result F :=
  match rec u v with Some x => Ok x | None => Raise IndexError end.

(** [adj_mats_orig[edge_type[:2]][edge_type[2]][u,v]] *)
Definition adj_get (edge_type : nat * nat * nat) (u v : nat) : result Z :=
  ms ← dict_get adj_mats edge_type.1;
  m ← list_get ms edge_type.2;
  getitem m u v.

(** [edges[edge_type[:2]][edge_type[2]]] *)
Definition edges_get (edges : edge_lists) (edge_type : nat * nat * nat)
  : result (list (nat * nat)) :=
  per_pair ← dict_get edges edge_type.1;
  list_get per_pair edge_type.2.

(** Lines 215-221: the body of the loop over positive edges. *)
Definition score_positive (rec : nat → nat → option F)
    (edge_type : nat * nat * nat) (t : tally) (uv : nat * nat)
  : result tally :=
  x ← rec_get rec uv.1 uv.2;
  let score := sigmoid x in
  a ← adj_get edge_type uv.1 uv.2;
  if decide (a = 1%Z) then
    Ok {| preds := preds t ++ [score];
          preds_neg := preds_neg t;
          actual := actual t ++ [edge_ind t];
          predicted := predicted t ++ [(score, edge_ind t)];
          edge_ind := S (edge_ind t) |}
  else Raise (AssertionError "Problem 1").

(** Lines 225-230: the body of the loop over negative edges. *)
Definition score_negative (rec : nat → nat → option F)
    (edge_type : nat * nat * nat) (t : tally) (uv : nat * nat)
  : result tally :=
  x ← rec_get rec uv.1 uv.2;
  let score := sigmoid x in
  a ← adj_get edge_type uv.1 uv.2;
  if decide (a = 0%Z) then
    Ok {| preds := preds t;
          preds_neg := preds_neg t ++ [score];
          actual := actual t;
          predicted := predicted t ++ [(score, edge_ind t)];
          edge_ind := S (edge_ind t) |}
  else Raise (AssertionError "Problem 0").

(** Lines 232-234. *)
Definition preds_all (t : tally) : list Q :=
  map nan_to_num (preds t ++ preds_neg t).

Definition labels_all (t : tally) : list bool :=
  replicate (length (preds t)) true ++ replicate (length (preds_neg t)) false.

(** Line 235: the ranked candidates are unzipped and the component of
    index 1, the edge indices, is taken; the subscript fails when there
    is no candidate at all. *)
Definition ranking (t : tally) : result (list nat) :=
  match sorted_reverse_by_fst (predicted t) with
  | [] => Raise IndexError
  | ranked => Ok (map snd ranked)
  end.

(** Lines 232-241: the three metrics of a completed tally. *)
Definition metrics_of (t : tally) : result (Q * Q * Q) :=
  ranked ← ranking t;
  roc_sc ← roc_auc_score (labels_all t) (preds_all t);
  let aupr_sc := average_precision_score (labels_all t) (preds_all t) in
  let apk_sc := apk (actual t) ranked 50 in
  Ok (roc_sc, aupr_sc, apk_sc).

(** Lines 209-241, once [rec] is known. *)
Definition score_edges (rec : nat → nat → option F)
    (edges_pos edges_neg : edge_lists) (edge_type : nat * nat * nat)
  : result (Q * Q * Q) :=
  pos ← edges_get edges_pos edge_type;
  t ← foldM (score_positive rec edge_type) pos (Tally [] [] [] [] 0);
  neg ← edges_get edges_neg edge_type;
  t ← foldM (score_negative rec edge_type) neg t;
  metrics_of t.

(** Lines 200-203: the updates of the global [feed_dict]; the lookup in
    [edge_type2idx] comes after the dropout update. *)
Definition with_dropout_off (feed_dict : gmap string value)
  : gmap string value :=
  <["dropout" := VInt 0]> feed_dict.

Definition evaluation_feed (feed_dict : gmap string value)
    (edge_type : nat * nat * nat) (idx : nat) : gmap string value :=
  <["batch_col_edge_type" := VInt (Z.of_nat edge_type.1.2)]>
  (<["batch_row_edge_type" := VInt (Z.of_nat edge_type.1.1)]>
  (<["batch_edge_type_idx" := VInt (Z.of_nat idx)]>
  (with_dropout_off feed_dict))).

(** The whole function: the new value of the global [feed_dict] and what
    the call returns or raises. *)
Definition get_accuracy_scores (feed_dict : gmap string value)
    (edges_pos edges_neg : edge_lists) (edge_type : nat * nat * nat)
  : gmap string value * result (Q * Q * Q) :=
  match dict_get edge_type2idx edge_type with
  | Raise e => (with_dropout_off feed_dict, Raise e)
  | Ok idx =>
      let fd := evaluation_feed feed_dict edge_type idx in
      (fd, rec ← sess_run fd; score_edges rec edges_pos edges_neg edge_type)
  end.
End Evaluator.

(** The example of the specification: a 3x3 relation with the edges (0,1)
    and (1,2), scored 0.9 and 0.8, and the non-edges (0,2) and (2,0),
    scored 0.1 and 0.2. *)
Definition example_adj : gmap (nat * nat) (list matrix) :=
  {[ (0, 0) := [set_one (set_one (zeros 3 3) 0 1) 1 2] ]}.

Definition example_idx : gmap (nat * nat * nat) nat := {[ (0, 0, 0) := 0 ]}.

Definition example_pos : edge_lists := {[ (0, 0) := [[(0, 1); (1, 2)]] ]}.
Definition example_neg : edge_lists := {[ (0, 0) := [[(0, 2); (2, 0)]] ]}.

Definition example_rec (u v : nat) : option score :=
  match u, v with
  | 0, 1 => Some (Fin (9 # 10))
  | 1, 2 => Some (Fin (8 # 10))
  | 0, 2 => Some (Fin (1 # 10))
  | 2, 0 => Some (Fin (2 # 10))
  | 0, 0 | 1, 0 | 1, 1 | 2, 1 | 2, 2 => Some NaN
  | _, _ => None
  end.

(** Modelled from the spec: [rank_metrics.apk] of [decagon.utility] is not
    among the sources; average precision over the first [k] ranked
    candidates, the relevant ones being those listed in [actual]. *)
Fixpoint apk_from (actual : list nat) (rank hits : nat) (ranked : list nat)
  : Q :=
  match ranked with
  | [] => 0%Q
  | p :: ranked' =>
      if bool_decide (p ∈ actual)
      then (Qnat (S hits) / Qnat (S rank)
            + apk_from actual (S rank) (S hits) ranked')%Q
      else apk_from actual (S rank) hits ranked'
  end.

(** Modelled from the spec: [rank_metrics.apk(actual, predicted, k)],
    used where the evaluator is run on the example. *)
Definition example_apk (actual ranked : list nat) (k : nat) : Q :=
  match actual with
  | [] => 0%Q
  | _ => (apk_from actual 0 0 (take k ranked)
          / Qnat (Nat.min (length actual) k))%Q
  end.

Definition example_eval (feed_dict : gmap string value)
  : gmap string value * result (Q * Q * Q) :=
  get_accuracy_scores (λ s : score, s) example_apk (λ _, Ok example_rec)
    example_idx example_adj feed_dict example_pos example_neg (0, 0, 0).

(** The tally after both loops have run over edges whose scores are [ps]
    (positives) and [ns] (negatives). *)
Definition tally_of (ps ns : list score) : tally :=
  {| preds := ps;
     preds_neg := ns;
     actual := seq 0 (length ps);
     predicted := zip (ps ++ ns) (seq 0 (length ps + length ns));
     edge_ind := length ps + length ns |}.

(** [s] is the score the model gives the edge [uv]. *)
Definition scored {F} (sigmoid : F → score) (rec : nat → nat → option F)
    (uv : nat * nat) (s : score) : Prop :=
  ∃ x, rec uv.1 uv.2 = Some x ∧ s = sigmoid x.

(** The example with the non-edge (0,2) listed among the positives. *)
Definition corrupt_pos : edge_lists := {[ (0, 0) := [[(0, 1); (0, 2)]] ]}.

(** The tally after the loop over the positives, respectively the
    negatives, has appended the scores [ss]. *)
Definition after_positive (t : tally) (ss : list score) : tally :=
  {| preds := preds t ++ ss;
     preds_neg := preds_neg t;
     actual := actual t ++ seq (edge_ind t) (length ss);
     predicted := predicted t ++ zip ss (seq (edge_ind t) (length ss));
     edge_ind := edge_ind t + length ss |}.

Definition after_negative (t : tally) (ss : list score) : tally :=
  {| preds := preds t;
     preds_neg := preds_neg t ++ ss;
     actual := actual t;
     predicted := predicted t ++ zip ss (seq (edge_ind t) (length ss));
     edge_ind := edge_ind t + length ss |}.


(** The example with a NaN score for the positive edge (0,1). *)
Definition example_rec_nan (u v : nat) : option score :=
  match u, v with
  | 0, 1 => Some NaN
  | _, _ => example_rec u v
  end.

(** ** The edge split partitioner *)

Record edge_split : Type := EdgeSplit {
  train_pos : list (nat * nat);
  val_pos : list (nat * nat);
  test_pos : list (nat * nat);
  train_neg : list (nat * nat);
  val_neg : list (nat * nat);
  test_neg : list (nat * nat)
}.

(** Modelled from the spec: the partitioner lives in
    [decagon.deep.minibatch], which is not among the sources.  Step 1:
    all pairs with [adj[u,v] == 1], only those with [u < v] for a
    symmetric node-type pair. *)
Definition extract_edges (symmetric : bool) (m : matrix) : list (nat * nat) :=
  filter (λ uv, entry m uv.1 uv.2 = 1%Z ∧ in_bounds m uv.1 uv.2 = true ∧
                (symmetric = true → uv.1 < uv.2))
         (elements (dom (entries m))).

(** Modelled from the spec: step 2 of the partitioner, a shuffle driven by
    a seeded generator (each draw picks one of the remaining edges). *)
Fixpoint shuffle_edges (n : nat) (r : rng nat) (l : list (nat * nat))
  : list (nat * nat) * rng nat :=
  match n with
  | 0 => ([], r)
  | S n' =>
      let '(k, r') := draw r in
      let i := k mod length l in
      match l !! i with
      | None => ([], r')
      | Some e =>
          let '(rest, r'') := shuffle_edges n' r' (delete i l) in
          (e :: rest, r'')
      end
  end.

(** Modelled from the spec: step 3 of the partitioner,
    [floor(f * |edges|)]. *)
Definition held_out (f : Q) (n : nat) : nat :=
  Z.to_nat (Qfloor (f * Qnat n)).

(** Modelled from the spec: step 4 of the partitioner, one negative pair
    by rejection sampling with a bounded number of attempts. *)
Fixpoint draw_negative (retries : nat) (m : matrix)
    (chosen : list (nat * nat)) (r : rng nat)
  : option (nat * nat) * rng nat :=
  match retries with
  | 0 => (None, r)
  | S retries' =>
      let '(a, r1) := draw r in
      let '(b, r2) := draw r1 in
      let uv := (a mod (shape m).1, b mod (shape m).2) in
      if decide (in_bounds m uv.1 uv.2 = true ∧ entry m uv.1 uv.2 = 0%Z ∧
                 uv ∉ chosen)
      then (Some uv, r2)
      else draw_negative retries' m chosen r2
  end.

(** Modelled from the spec: step 4 of the partitioner, as many negatives
    as the split has positives, or [SamplingExhaustedError]. *)
Fixpoint sample_negatives (count retries : nat) (m : matrix)
    (chosen : list (nat * nat)) (r : rng nat)
  : result (list (nat * nat)) * rng nat :=
  match count with
  | 0 => (Ok chosen, r)
  | S count' =>
      match draw_negative retries m chosen r with
      | (None, r') => (Raise SamplingExhaustedError, r')
      | (Some uv, r') => sample_negatives count' retries m (chosen ++ [uv]) r'
      end
  end.

(** Modelled from the spec: the partitioner for one relation, with held-out
    fraction [f] and no connectivity-preserving exclusions. *)
Definition partition_relation (symmetric : bool) (f : Q) (retries : nat)
    (m : matrix) (r : rng nat) : result edge_split * rng nat :=
  let edges := extract_edges symmetric m in
  let '(shuffled, r) := shuffle_edges (length edges) r edges in
  let n_val := held_out f (length edges) in
  let n_test := held_out f (length edges) in
  let val := take n_val shuffled in
  let test := take n_test (drop n_val shuffled) in
  let train := drop (n_val + n_test) shuffled in
  match sample_negatives (length train) retries m [] r with
  | (Raise e, r) => (Raise e, r)
  | (Ok train_false, r) =>
      match sample_negatives (length val) retries m [] r with
      | (Raise e, r) => (Raise e, r)
      | (Ok val_false, r) =>
          match sample_negatives (length test) retries m [] r with
          | (Raise e, r) => (Raise e, r)
          | (Ok test_false, r) =>
              (Ok {| train_pos := train; val_pos := val; test_pos := test;
                     train_neg := train_false; val_neg := val_false;
                     test_neg := test_false |}, r)
          end
      end
  end.

(** A symmetric relation on six nodes with ten edges, and a generator. *)
Definition ring_adj : matrix :=
  foldr (λ uv m, set_one (set_one m uv.1 uv.2) uv.2 uv.1) (zeros 6 6)
    [(0, 1); (1, 2); (2, 3); (3, 4); (4, 5); (0, 5); (0, 2); (1, 3); (2, 4);
     (3, 5)].

Definition counter_rng : rng nat := Rng (λ i, 7 * i + 3) 0.

(** A pair inside the matrix that is not an edge. *)
Definition non_edge (m : matrix) (uv : nat * nat) : Prop :=
  in_bounds m uv.1 uv.2 = true ∧ entry m uv.1 uv.2 = 0%Z.

Definition square_rng : rng nat := Rng (λ i, i * i + i / 3) 0.

Definition ring_split : edge_split :=
  {| train_pos := [(3, 5); (4, 5); (3, 4); (0, 2); (0, 5); (1, 3)];
     val_pos := [(2, 4); (2, 3)];
     test_pos := [(1, 2); (0, 1)];
     train_neg := [(1, 4); (2, 2); (3, 0); (4, 4); (5, 2); (0, 0)];
     val_neg := [(1, 4); (2, 2)];
     test_neg := [(3, 0); (4, 4)] |}.

(** ** The training loop *)

(** The minibatch iterator, [EdgeMinibatchIterator] of
    [decagon.deep.minibatch], through the attributes and methods the script
    uses.  A method that changes the iterator returns the new one. *)
Class MinibatchIterator (M : Type) : Type := {
  shuffle : M → M;
  at_end : M → bool;
  next_minibatch_feed_dict : M → M * gmap string value;
  update_feed_dict : M → gmap string value → Q → gmap string value;
  current_edge_type_idx : M → nat;
  idx2edge_type : M → gmap nat (nat * nat * nat);
  edge_type2idx : M → gmap (nat * nat * nat) nat;
  val_edges : M → edge_lists;
  val_edges_false : M → edge_lists;
  test_edges : M → edge_lists;
  test_edges_false : M → edge_lists
}.

(** The TensorFlow session with the model and optimizer: one weight
    update, and the predictions of the current weights. *)
Class Session (T F : Type) : Type := {
  train_step : T → gmap string value → T;
  predictions : T → gmap string value → result (nat → nat → option F)
}.

(** The calls the script makes on the iterator and the session, and the
    metrics it prints (lines 382-385 and 393-396), in order. *)
Inductive event : Type :=
| EvShuffle
| EvDraw
| EvOptimize
| EvValidate (edge_type : nat * nat * nat) (metrics : Q * Q * Q)
| EvTest (et : nat) (metrics : Q * Q * Q).

Global Instance Q_eq_dec : EqDecision Q.
Proof. solve_decision. Defined.

Global Instance event_eq_dec : EqDecision event.
Proof. solve_decision. Defined.

Record world (M T : Type) : Type := World {
  minibatch : M;
  sess : T;
  feed_dict : gmap string value;
  trace : list event
}.
Arguments World {M T} minibatch sess feed_dict trace.
Arguments minibatch {M T} w.
Arguments sess {M T} w.
Arguments feed_dict {M T} w.
Arguments trace {M T} w.

(** How a run ends: normally, by an exception, or (for the model only)
    with the iterations allowed to a [while] loop used up. *)
Inductive outcome (W : Type) : Type :=
| Done (w : W)
| Raised (e : exn) (w : W)
| OutOfFuel (w : W).
Arguments Done {W} w.
Arguments Raised {W} e w.
Arguments OutOfFuel {W} w.


Definition PRINT_PROGRESS_EVERY : nat := 150.

Section TrainingLoop.
Context {M T F : Type} `{MinibatchIterator M} `{Session T F}.
Context (sigmoid : F → score).
Context (apk : list nat → list nat → nat → Q).
Context (adj_mats : gmap (nat * nat) (list matrix)).
(** [FLAGS.dropout], [FLAGS.epochs] and [num_edge_types]. *)
Context (flag_dropout : Q) (flag_epochs : nat) (n_edge_types : nat).

(** A call of [get_accuracy_scores] from the script, on the global feed
    dictionary, followed by the [print] of its metrics, which [ev]
    records; a call that raises prints nothing. *)
Definition evaluate (ev : Q * Q * Q → event) (edges_pos edges_neg : edge_lists)
    (edge_type : nat * nat * nat) (w : world M T)
  : world M T * result (Q * Q * Q) :=
  let out :=
    get_accuracy_scores sigmoid apk (predictions (sess w))
      (edge_type2idx (minibatch w)) adj_mats
      (feed_dict w) edges_pos edges_neg edge_type in
  (World (minibatch w) (sess w) out.1
     (trace w ++ match out.2 with Ok m => [ev m] | Raise _ => [] end),
   out.2).

(** Lines 361-386: the [while] loop of one epoch, from iteration [itr]. *)
Fixpoint train_batches (fuel itr : nat) (w : world M T)
  : outcome (world M T) :=
  if at_end (minibatch w) then Done w
  else
    match fuel with
    | 0 => OutOfFuel w
    | S fuel' =>
        let '(mb, fd) := next_minibatch_feed_dict (minibatch w) in
        let fd := update_feed_dict mb fd flag_dropout in
        let w := World mb (train_step (sess w) fd) fd
                   (trace w ++ [EvDraw; EvOptimize]) in
        if itr mod PRINT_PROGRESS_EVERY =? 0 then
          match dict_get (idx2edge_type mb) (current_edge_type_idx mb) with
          | Raise e => Raised e w
          | Ok edge_type =>
              match evaluate (EvValidate edge_type) (val_edges mb)
                      (val_edges_false mb) edge_type w with
              | (w, Raise e) => Raised e w
              | (w, Ok _) => train_batches fuel' (S itr) w
              end
          end
        else train_batches fuel' (S itr) w
    end.

(** Lines 357-386: [epochs] further epochs. *)
Fixpoint train_epochs (fuel epochs : nat) (w : world M T)
  : outcome (world M T) :=
  match epochs with
  | 0 => Done w
  | S epochs' =>
      let w := World (shuffle (minibatch w)) (sess w) (feed_dict w)
                 (trace w ++ [EvShuffle]) in
      match train_batches fuel 0 w with
      | Done w => train_epochs fuel epochs' w
      | stopped => stopped
      end
  end.

(** Lines 390-397: the test metrics of the relations in [ets]. *)
Fixpoint test_relations (ets : list nat) (w : world M T)
  : outcome (world M T) :=
  match ets with
  | [] => Done w
  | et :: ets' =>
      match dict_get (idx2edge_type (minibatch w)) et with
      | Raise e => Raised e w
      | Ok edge_type =>
          match evaluate (EvTest et) (test_edges (minibatch w))
                  (test_edges_false (minibatch w)) edge_type w with
          | (w, Raise e) => Raised e w
          | (w, Ok _) => test_relations ets' w
          end
      end
  end.

(** Lines 357-397. *)
Definition train_and_test (fuel : nat) (w : world M T)
  : outcome (world M T) :=
  match train_epochs fuel flag_epochs w with
  | Done w => test_relations (seq 0 n_edge_types) w
  | stopped => stopped
  end.



(** The test evaluations of the relation indices [ets], in order: each
    runs the evaluator on the test edges of [idx2edge_type[et]], with
    the trained weights and on the global feed dictionary as the
    previous evaluation left it, and prints its metrics. *)
Inductive test_calls (mb : M) (s : T)
  : list nat → gmap string value → list event → gmap string value → Prop :=
| test_calls_nil fd : test_calls mb s [] fd [] fd
| test_calls_cons et ets fd edge_type fd1 metrics tr fd' :
    idx2edge_type mb !! et = Some edge_type →
    get_accuracy_scores sigmoid apk (predictions s) (edge_type2idx mb)
      adj_mats fd (test_edges mb) (test_edges_false mb) edge_type
    = (fd1, Ok metrics) →
    test_calls mb s ets fd1 tr fd' →
    test_calls mb s (et :: ets) fd (EvTest et metrics :: tr) fd'.
End TrainingLoop.

(** A small iterator and session for running the loop: one relation, the
    data of the example, 151 batches per epoch; the session counts its
    optimization steps. *)
Definition toy_iterator : MinibatchIterator nat :=
  {| shuffle := λ _, 0;
     at_end := λ drawn, 151 <=? drawn;
     next_minibatch_feed_dict := λ drawn,
       (S drawn, {[ "batch_edge_type_idx" := VInt 0 ]});
     update_feed_dict := λ _ fd dropout, <["dropout" := VFloat dropout]> fd;
     current_edge_type_idx := λ _, 0;
     idx2edge_type := λ _, {[ 0 := (0, 0, 0) ]};
     edge_type2idx := λ _, example_idx;
     val_edges := λ _, example_pos;
     val_edges_false := λ _, example_neg;
     test_edges := λ _, example_pos;
     test_edges_false := λ _, example_neg |}.

Definition toy_session : Session nat score :=
  {| train_step := λ steps _, S steps;
     predictions := λ _ _, Ok example_rec |}.

Definition toy_run : outcome (world nat nat) :=
  @train_and_test nat nat score toy_iterator toy_session (λ s, s)
    example_apk example_adj (1 # 10) 2 1 200 (World 0 0 ∅ []).

(** Edge lists of the example relation with no pair at all. *)
Definition no_edges : edge_lists := {[ (0, 0) := [[]] ]}.

(** ** Further notions for the assembled data *)

(** A symmetric 0/1 matrix of shape [n] x [n] all of whose stored entries
    are ones inside the shape. *)
Definition symmetric01 (n : nat) (m : matrix) : Prop :=
  shape m = (n, n) ∧
  (∀ u v, entries m !! (u, v) = entries m !! (v, u)) ∧
  (∀ u v x, entries m !! (u, v) = Some x → x = 1%Z ∧ u < n ∧ v < n).

(** No stored entry on the diagonal. *)
Definition zero_diagonal (m : matrix) : Prop :=
  ∀ u, entries m !! (u, u) = None.

(** A real-data environment in which a side-effect record names a
    combination that [drug2drug] does not know. *)
Definition broken_env : environment :=
  {| nx_gene_adj := zeros 0 0;
     np_random := Rng (λ _, 0%Q) 0;
     py_random := Rng (λ _, 0%Z) 0;
     ppi_adj := zeros 2 2;
     gene2idx := <["g0" := 0]> (<["g1" := 1]> ∅);
     drug2proteins := [("A", ["g0"])];
     drug2drug := [("c1", ("A", "B"))];
     drug2se := [("c1", ["s1"]); ("c9", ["s2"])] |}.

(** A prediction matrix of the example's shape whose every score is NaN. *)
Definition nan_rec (u v : nat) : option score :=
  if (u <? 3) && (v <? 3) then Some NaN else None.

(** The example with the edge (0,1) listed among the negatives. *)
Definition corrupt_neg : edge_lists := {[ (0, 0) := [[(0, 2); (0, 1)]] ]}.

(** The example with a pair outside the 3x3 prediction matrix listed
    among the positives; it is no edge either. *)
Definition outside_pos : edge_lists := {[ (0, 0) := [[(0, 1); (0, 7)]] ]}.

(** The scores of the example changed at a pair that no edge list names. *)
Definition example_rec_other (u v : nat) : option score :=
  match u, v with
  | 1, 1 => Some (Fin 1)
  | _, _ => example_rec u v
  end.

(** ** Counting the calls of a run *)

Definition is_validation (e : event) : bool :=
  match e with EvValidate _ _ => true | _ => false end.

Definition is_draw (e : event) : bool :=
  match e with EvDraw => true | _ => false end.


Definition is_test (e : event) : bool :=
  match e with EvTest _ _ => true | _ => false end.

(** The number of events of a trace that satisfy [p]. *)
Definition count_events (p : event → bool) (tr : list event) : nat :=
  length (filter (λ e, p e = true) tr).

(** The iteration numbers, counted from [itr] optimization steps already
    made, whose validation metrics a trace shows: a validation line
    belongs to the iteration of the optimization step before it. *)
Fixpoint validated_at (itr : nat) (tr : list event) : list nat :=
  match tr with
  | [] => []
  | EvOptimize :: tr' => validated_at (S itr) tr'
  | EvValidate _ _ :: tr' => (itr - 1) :: validated_at itr tr'
  | _ :: tr' => validated_at itr tr'
  end.



(** An iterator like [toy_iterator] whose relation index is unknown to
    [edge_type2idx], so that the first validation fails. *)
Definition lost_iterator : MinibatchIterator nat :=
  {| shuffle := λ _, 0;
     at_end := λ drawn, 151 <=? drawn;
     next_minibatch_feed_dict := λ drawn,
       (S drawn, {[ "batch_edge_type_idx" := VInt 0 ]});
     update_feed_dict := λ _ fd dropout, <["dropout" := VFloat dropout]> fd;
     current_edge_type_idx := λ _, 0;
     idx2edge_type := λ _, {[ 0 := (0, 0, 1) ]};
     edge_type2idx := λ _, example_idx;
     val_edges := λ _, example_pos;
     val_edges_false := λ _, example_neg;
     test_edges := λ _, example_pos;
     test_edges_false := λ _, example_neg |}.

(** ** [construct_placeholders] *)

From stdpp Require Import pretty.

Inductive dtype : Type := int32 | float32.

(** [tf.placeholder(dtype, shape=..., name=...)],
    [tf.placeholder_with_default(value, shape=...)] and
    [tf.sparse_placeholder(dtype)]. *)
Inductive placeholder : Type :=
| Dense (dt : dtype) (shape : option (list nat)) (name : option string)
| DenseWithDefault (default : Q) (shape : list nat)
| Sparse (dt : dtype).

(** ['adj_mats_%d,%d,%d' % (i, j, k)] and ['feat_%d' % i]. *)
Definition adj_mats_key (i j k : nat) : string :=
  "adj_mats_" +:+ pretty i +:+ "," +:+ pretty j +:+ "," +:+ pretty k.

Definition feat_key (i : nat) : string := "feat_" +:+ pretty i.

(** [d.update({key: value for key in keys})] *)
Definition update_all {V} (d : gmap string V) (keys : list string) (value : V)
  : gmap string V :=
  foldl (λ acc key, <[key := value]> acc) d keys.

(** Lines 244-251: the dictionary literal. *)
Definition fixed_placeholders : gmap string placeholder :=
  <["batch" := Dense int32 None (Some "batch")]>
  (<["batch_edge_type_idx" := Dense int32 (Some []) (Some "batch_edge_type_idx")]>
  (<["batch_row_edge_type" := Dense int32 (Some []) (Some "batch_row_edge_type")]>
  (<["batch_col_edge_type" := Dense int32 (Some []) (Some "batch_col_edge_type")]>
  (<["degrees" := Dense int32 None None]>
  (<["dropout" := DenseWithDefault 0 []]> ∅))))).

(** Lines 252-254: the keys of the first comprehension, one per relation. *)
Definition adj_mats_keys (edge_types : gmap (nat * nat) nat) : list string :=
  ijn ← map_to_list edge_types;
  adj_mats_key ijn.1.1 ijn.1.2 <$> seq 0 ijn.2.

(** Lines 255-257: the keys of the second one, [for i, _ in edge_types]. *)
Definition feat_keys (edge_types : gmap (nat * nat) nat) : list string :=
  (λ ijn, feat_key ijn.1.1) <$> map_to_list edge_types.

(** Lines 243-258. *)
Definition construct_placeholders (edge_types : gmap (nat * nat) nat)
  : gmap string placeholder :=
  let placeholders := fixed_placeholders in
  let placeholders :=
    update_all placeholders (adj_mats_keys edge_types) (Sparse float32) in
  update_all placeholders (feat_keys edge_types) (Sparse float32).

(** ** Degrees as neighbour counts *)

(** The nodes below [n] with an edge to [v], and the vector of their
    numbers. *)
Definition neighbours (m : matrix) (n v : nat) : list nat :=
  filter (λ u, entry m u v = 1%Z) (seq 0 n).

Definition neighbour_counts (n : nat) (m : matrix) : list Z :=
  map (λ v, Z.of_nat (length (neighbours m n v))) (seq 0 n).

(** ** What the matrices of the real data hold *)

(** Some record of [l] lists the side effect [se] for a combination whose
    two drugs have the indices [u] and [v], in either order. *)
Definition side_effect_pair (env : environment) (drug2idx : gmap string nat)
    (se : string) (l : list (string * list string)) (u v : nat) : Prop :=
  ∃ cs dd i j,
    cs ∈ l ∧ se ∈ cs.2 ∧ assoc_get (drug2drug env) cs.1 = Ok dd ∧
    drug2idx !! dd.1 = Some i ∧ drug2idx !! dd.2 = Some j ∧
    ((u, v) = (i, j) ∨ (u, v) = (j, i)).

(** Some record of [l] gives the drug of index [d] a protein whose gene
    has the index [g]. *)
Definition drug_targets (env : environment) (drug2idx : gmap string nat)
    (l : list (string * list string)) (g d : nat) : Prop :=
  ∃ dp p,
    dp ∈ l ∧ p ∈ dp.2 ∧ drug2idx !! dp.1 = Some d ∧
    gene2idx env !! p = Some g.

(** ** A batch with a NaN score *)



(** ** Average precision in double precision *)

From Stdlib Require SpecFloat.

(** IEEE 754 binary64 arithmetic, as specified by the Standard Library
    (round to nearest, ties to even). *)
Module Binary64.
Definition float : Type := SpecFloat.spec_float.
Definition of_nat (n : nat) : float :=
  SpecFloat.binary_normalize 53 1024 (Z.of_nat n) 0 false.
Definition zero : float := of_nat 0.
Definition one : float := of_nat 1.
Definition add : float → float → float := SpecFloat.SFadd 53 1024.
Definition sub : float → float → float := SpecFloat.SFsub 53 1024.
Definition mul : float → float → float := SpecFloat.SFmul 53 1024.
Definition div : float → float → float := SpecFloat.SFdiv 53 1024.
Definition opp : float → float := SpecFloat.SFopp.
End Binary64.

(** [np.sum] of a contiguous array of doubles: NumPy's pairwise
    summation.  Fewer than 8 elements are added from left to right; up
    to 128 are added into 8 accumulators, which are then combined in
    pairs, and the elements after the last full block of 8 are added one
    by one; a longer array is split in two. *)
Fixpoint add_blocks (fuel : nat) (r rest : list Binary64.float)
  : list Binary64.float :=
  match fuel, rest with
  | S fuel', _ :: _ =>
      add_blocks fuel' (zip_with Binary64.add r (take 8 rest)) (drop 8 rest)
  | _, _ => r
  end.

Definition combine_accumulators (r : list Binary64.float) : Binary64.float :=
  match r with
  | [r0; r1; r2; r3; r4; r5; r6; r7] =>
      Binary64.add
        (Binary64.add (Binary64.add r0 r1) (Binary64.add r2 r3))
        (Binary64.add (Binary64.add r4 r5) (Binary64.add r6 r7))
  | _ => Binary64.zero
  end.

Fixpoint pairwise_sum (fuel : nat) (a : list Binary64.float)
  : Binary64.float :=
  let n := length a in
  if n <? 8 then foldl Binary64.add Binary64.zero a
  else if n <=? 128 then
    let full := n - n mod 8 in
    let r := add_blocks n (take 8 a) (drop 8 (take full a)) in
    foldl Binary64.add (combine_accumulators r) (drop full a)
  else
    match fuel with
    | 0 => Binary64.zero
    | S fuel' =>
        let n2 := n / 2 - (n / 2) mod 8 in
        Binary64.add (pairwise_sum fuel' (take n2 a))
                     (pairwise_sum fuel' (drop n2 a))
    end.

Definition np_sum (a : list Binary64.float) : Binary64.float :=
  Binary64.add Binary64.zero (pairwise_sum (length a) a).

(** [np.diff] *)
Definition np_diff (a : list Binary64.float) : list Binary64.float :=
  zip_with (λ x y, Binary64.sub y x) a (tail a).

(** [precision_recall_curve]: precision and recall at the points of the
    curve up to the first that reaches full recall, reversed, with a
    final 1 and 0. *)
Fixpoint until_full_recall (total : nat) (pts : list (nat * nat))
  : list (nat * nat) :=
  match pts with
  | [] => []
  | p :: pts' => if p.2 =? total then [p] else p :: until_full_recall total pts'
  end.

Definition precision_recall_curve (pts : list (nat * nat))
  : list Binary64.float * list Binary64.float :=
  let total := match last pts with Some p => p.2 | None => 0 end in
  let kept := until_full_recall total pts in
  let precision :=
    map (λ p, Binary64.div (Binary64.of_nat p.2)
                (Binary64.add (Binary64.of_nat p.2) (Binary64.of_nat p.1)))
        kept in
  let recall :=
    map (λ p, Binary64.div (Binary64.of_nat p.2) (Binary64.of_nat total))
        kept in
  (reverse precision ++ [Binary64.one], reverse recall ++ [Binary64.zero]).

(** [metrics.average_precision_score(y_true, y_score)] as scikit-learn
    evaluates it: [-np.sum(np.diff(recall) * np.array(precision)[:-1])]
    in doubles. *)
Definition average_precision_score_binary64 (y_true : list bool)
    (y_score : list Q) : Binary64.float :=
  let pts := clf_curve 0 0 (by_decreasing_score (zip y_score y_true)) in
  let '(precision, recall) := precision_recall_curve pts in
  Binary64.opp
    (np_sum (zip_with Binary64.mul (np_diff recall) (removelast precision))).

(** ** The assembled adjacency store and degree table *)

Section Assembly.

Lemma lookup_kmap_swap (m : gmap (nat * nat) Z) (u v : nat) :
  kmap (M2 := gmap (nat * nat)) prod_swap m !! (u, v) = m !! (v, u).
Proof. exact (lookup_kmap prod_swap m (v, u)). Qed.

Lemma transpose_entry (m : matrix) (u v : nat) :
  entry (transpose m) u v = entry m v u.
Proof. unfold entry, transpose; simpl. by rewrite lookup_kmap_swap. Qed.

Lemma transpose_getitem (m : matrix) (u v : nat) :
  getitem (transpose m) u v = getitem m v u.
Proof.
  unfold getitem, in_bounds. rewrite transpose_entry.
  destruct m as [[r c] es]; simpl. by rewrite andb_comm.
Qed.

Lemma transpose_is_transpose (m : matrix) : is_transpose m (transpose m).
Proof.
  split; [by destruct m as [[r c] es]|].
  intros u v. split; [apply transpose_entry | apply transpose_getitem].
Qed.

Lemma dummy_data_consistent genes drugs rel_types env :
  raw_consistent (dummy_data genes drugs rel_types env).
Proof. split; [|split]; reflexivity. Qed.

Lemma real_data_consistent env raw :
  real_data env = Ok raw → raw_consistent raw.
Proof.
  unfold real_data. intros H.
  destruct (real_gene_drug _ _ _ _) as [gd|]; [|discriminate].
  simpl in H.
  destruct (mapM _ _) as [dd|]; [|discriminate].
  simpl in H. injection H as <-. by repeat split.
Qed.

Lemma load_decagon_data_inv use_dummy env d :
  load_decagon_data use_dummy env = Ok d →
  ∃ raw, d = assemble raw ∧ raw_consistent raw.
Proof.
  unfold load_decagon_data. destruct use_dummy.
  - intros [= <-]. eexists. split; [reflexivity|].
    apply dummy_data_consistent.
  - destruct (real_data env) as [raw|] eqn:E; [|discriminate].
    intros [= <-]. exists raw. split; [done|].
    by eapply real_data_consistent.
Qed.

Lemma lookup_app_transposed (L : list matrix) (k : nat) :
  k < length L →
  ∃ a, (L ++ map transpose L) !! k = Some a ∧
       (L ++ map transpose L) !! (k + length L) = Some (transpose a).
Proof.
  intros Hk. destruct (lookup_lt_is_Some_2 L k Hk) as [a Ha].
  exists a. split; [by rewrite lookup_app_l|].
  rewrite lookup_app_r by lia.
  replace (k + length L - length L) with k by lia.
  change (map transpose L) with (transpose <$> L).
  by rewrite list_lookup_fmap, Ha.
Qed.

End Assembly.

(** C7. In the store built by [load_decagon_data], the pair (0,0) holds a
    matrix followed by its transpose; the pair (1,1) holds [L] base
    matrices followed by their [L] transposes, entry [k + L] being the
    transpose of entry [k]; and the single (1,0) matrix is the transpose of
    the single (0,1) matrix. *)
Theorem adjacency_store_transposes (use_dummy : bool) (env : environment)
    (d : decagon_data) :
  load_decagon_data use_dummy env = Ok d →
  (∃ g g', adj_mats_orig d !! (0, 0) = Some [g; g'] ∧ is_transpose g g') ∧
  (∃ ms L, adj_mats_orig d !! (1, 1) = Some ms ∧ length ms = 2 * L ∧
     ∀ k, k < L →
       ∃ a b, ms !! k = Some a ∧ ms !! (k + L) = Some b ∧ is_transpose a b) ∧
  (∃ a b, adj_mats_orig d !! (0, 1) = Some [a] ∧
          adj_mats_orig d !! (1, 0) = Some [b] ∧ is_transpose a b).
Proof.
  intros H. apply load_decagon_data_inv in H as (raw & -> & Hgd & _ & _).
  split; [|split].
  - exists (gene_adj raw), (transpose (gene_adj raw)).
    split; [reflexivity | apply transpose_is_transpose].
  - exists (drug_drug_adj_list raw ++ map transpose (drug_drug_adj_list raw)),
           (length (drug_drug_adj_list raw)).
    split; [reflexivity|]. split.
    + rewrite length_app, length_map. lia.
    + intros k Hk.
      destruct (lookup_app_transposed _ k Hk) as (a & Ha & Hb).
      exists a, (transpose a). auto using transpose_is_transpose.
  - exists (gene_drug_adj raw), (drug_gene_adj raw).
    split; [reflexivity|]. split; [reflexivity|].
    rewrite Hgd. apply transpose_is_transpose.
Qed.

Lemma adjacency_store_transposes_witness :
  ∃ a b, adj_mats_orig small_data !! (0, 1) = Some [a] ∧
         adj_mats_orig small_data !! (1, 0) = Some [b] ∧ is_transpose a b.
Proof.
  apply (adjacency_store_transposes false small_env small_data).
  vm_compute. reflexivity.
Defined.

(** C6 (as amended). The degree table holds, per node type, a list of
    per-relation vectors, not one aggregated vector: for genes the column
    sums of the gene-gene matrix, twice; for drugs the column sums of each
    base drug-drug matrix on its own, the list of [L] vectors repeated
    for the [L] transposes.  The gene-drug relations contribute nothing,
    and no other node type has an entry. *)
Theorem degrees_per_relation (use_dummy : bool) (env : environment)
    (d : decagon_data) :
  load_decagon_data use_dummy env = Ok d →
  ∃ g L,
    adj_mats_orig d !! (0, 0) = Some [g; transpose g] ∧
    adj_mats_orig d !! (1, 1) = Some (L ++ map transpose L) ∧
    degrees d !! 0 = Some [sum_axis0 g; sum_axis0 g] ∧
    degrees d !! 1 = Some (map sum_axis0 L ++ map sum_axis0 L) ∧
    ∀ t, t ≠ 0 → t ≠ 1 → degrees d !! t = None.
Proof.
  intros H. apply load_decagon_data_inv in H as (raw & -> & _ & Hg & Hd).
  exists (gene_adj raw), (drug_drug_adj_list raw).
  split; [reflexivity|]. split; [reflexivity|].
  unfold assemble; simpl. rewrite Hg, Hd.
  split; [reflexivity|]. split; [reflexivity|].
  intros t H0 H1.
  rewrite lookup_insert_ne by done. rewrite lookup_insert_ne by done.
  apply lookup_empty.
Qed.

Lemma degrees_per_relation_witness :
  ∃ g L,
    adj_mats_orig small_data !! (0, 0) = Some [g; transpose g] ∧
    adj_mats_orig small_data !! (1, 1) = Some (L ++ map transpose L) ∧
    degrees small_data !! 0 = Some [sum_axis0 g; sum_axis0 g] ∧
    degrees small_data !! 1 = Some (map sum_axis0 L ++ map sum_axis0 L) ∧
    ∀ t, t ≠ 0 → t ≠ 1 → degrees small_data !! t = None.
Proof.
  apply (degrees_per_relation false small_env small_data).
  vm_compute. reflexivity.
Defined.

(** C6 (as stated) fails.  With three drugs and two side effects (one on
    a single drug pair, one on the two other pairs) the drug entry of the
    degree table lists the vectors [0;1;1] and [2;1;1] (drugs numbered in
    the order of [elements]); they differ from each other, so no single
    vector is "the" degree vector of the drug type, and neither is the
    aggregated count [4;5;6]. *)
Lemma degrees_not_aggregated :
  load_decagon_data false small_env = Ok small_data ∧
  degrees small_data !! 1
    = Some [[0; 1; 1]; [2; 1; 1]; [0; 1; 1]; [2; 1; 1]]%Z ∧
  aggregated_degree (adj_mats_orig small_data) 1 3 = [4; 5; 6]%Z ∧
  ¬ degrees_aggregated small_data ∧
  ¬ ∃ agg : nat → list Z,
      ∀ t vs v, degrees small_data !! t = Some vs → v ∈ vs → v = agg t.
Proof.
  assert (Hd : degrees small_data !! 1
               = Some [[0; 1; 1]; [2; 1; 1]; [0; 1; 1]; [2; 1; 1]]%Z)
    by (vm_compute; reflexivity).
  split; [vm_compute; reflexivity|].
  split; [exact Hd|].
  split; [vm_compute; reflexivity|].
  split.
  - intros H.
    specialize (H 1 _ 3 [0; 1; 1]%Z Hd).
    assert (Hn : num_feat small_data !! 1 = Some 3) by (vm_compute; reflexivity).
    specialize (H Hn ltac:(left)).
    vm_compute in H. discriminate H.
  - intros [agg H].
    pose proof (H 1 _ [0; 1; 1]%Z Hd ltac:(left)) as H1.
    pose proof (H 1 _ [2; 1; 1]%Z Hd ltac:(right; left)) as H2.
    rewrite <- H2 in H1. discriminate H1.
Qed.

(** ** Synthetic data and the generator of Python's [random] module *)

Section DummyData.

Lemma entry_set_one_eq (m : matrix) (u v : nat) :
  entry (set_one m u v) u v = 1%Z.
Proof. unfold entry, set_one; simpl. by rewrite lookup_insert_eq. Qed.

Lemma entry_set_one_ne (m : matrix) (a b u v : nat) :
  (a, b) ≠ (u, v) → entry (set_one m a b) u v = entry m u v.
Proof. intros H. unfold entry, set_one; simpl. by rewrite lookup_insert_ne. Qed.

Lemma entry_zeros (r c u v : nat) : entry (zeros r c) u v = 0%Z.
Proof. reflexivity. Qed.

Lemma fill_pairs_entry_other (ps : list (nat * nat)) (py : rng Z)
    (mat : matrix) (u v : nat) :
  (∀ a b, (a, b) ∈ ps → (a, b) ≠ (u, v) ∧ (b, a) ≠ (u, v)) →
  entry (fill_pairs ps py mat).1 u v = entry mat u v.
Proof.
  revert py mat. induction ps as [|[d1 d2] ps IH]; intros py mat Hps.
  - reflexivity.
  - simpl. rewrite IH.
    + destruct (Hps d1 d2 ltac:(left)) as [H1 H2].
      destruct (_ <? _)%Z; [|reflexivity].
      rewrite entry_set_one_ne by exact H2.
      by rewrite entry_set_one_ne by exact H1.
    + intros a b Hab. apply Hps. by right.
Qed.

Lemma combinations2_bounds (n s a b : nat) :
  (a, b) ∈ combinations2 (seq s n) → s ≤ a ∧ a < b.
Proof.
  revert s. induction n as [|n IH]; intros s; simpl.
  - by intros ?%elem_of_nil.
  - rewrite elem_of_app. intros [H|H].
    + apply list_elem_of_fmap in H as (y & [= -> ->] & Hy).
      apply elem_of_seq in Hy. lia.
    + apply IH in H. lia.
Qed.

(** The pair (0,1) is drawn first and never revisited. *)
Lemma combinations2_head (n : nat) :
  ∃ rest, combinations2 (seq 0 (S (S n))) = (0, 1) :: rest ∧
          ∀ a b, (a, b) ∈ rest → 2 ≤ b.
Proof.
  exists (map (pair 0) (seq 2 n) ++ combinations2 (seq 1 (S n))).
  split; [reflexivity|].
  intros a b. rewrite elem_of_app. intros [H|H].
  - apply list_elem_of_fmap in H as (y & [= -> ->] & Hy).
    apply elem_of_seq in Hy. lia.
  - apply combinations2_bounds in H. lia.
Qed.

(** The first drug pair of the first synthetic side effect is an edge
    exactly when the first [randint(0, 1000)] is below 3. *)
Lemma dummy_drug_drug_first (rel_types drugs : nat) (py : rng Z) :
  0 < rel_types → 2 ≤ drugs →
  ∃ m rest,
    (dummy_drug_drug rel_types drugs py).1 = m :: rest ∧
    entry m 0 1 = if (stream py (pos py) <? 3)%Z then 1%Z else 0%Z.
Proof.
  intros Hr Hd.
  destruct rel_types as [|k]; [lia|].
  destruct drugs as [|[|n]]; [lia|lia|].
  destruct (combinations2_head n) as (ps & Hps & Hb).
  cbn [dummy_drug_drug]. rewrite Hps.
  destruct (fill_pairs _ _ _) as [mat py'] eqn:E.
  destruct (dummy_drug_drug k _ py') as [rest py''].
  exists mat, rest. split; [reflexivity|].
  change mat with (mat, py').1. rewrite <- E.
  cbn [fill_pairs draw fst snd].
  rewrite fill_pairs_entry_other.
  - destruct (_ <? _)%Z; [|reflexivity].
    rewrite entry_set_one_ne by congruence. apply entry_set_one_eq.
  - intros a b Hab%Hb. split; intros [= ]; lia.
Qed.

End DummyData.

Lemma dummy_data_first_pair (genes drugs rel_types : nat)
    (env1 env2 : environment) :
  0 < rel_types → 2 ≤ drugs →
  (stream (py_random env1) (pos (py_random env1)) <? 3)%Z = true →
  (stream (py_random env2) (pos (py_random env2)) <? 3)%Z = false →
  adj_mats_orig (assemble (dummy_data genes drugs rel_types env1))
  ≠ adj_mats_orig (assemble (dummy_data genes drugs rel_types env2)).
Proof.
  intros Hr Hd Hlt Hge Heq.
  apply (f_equal (λ adj : gmap (nat * nat) (list matrix), adj !! (1, 1)))
    in Heq.
  unfold assemble in Heq; cbn [adj_mats_orig] in Heq.
  rewrite !lookup_insert_eq in Heq.
  cbn [drug_drug_adj_list dummy_data] in Heq.
  destruct (dummy_drug_drug_first rel_types drugs (py_random env1) Hr Hd)
    as (m1 & r1 & E1 & H1).
  destruct (dummy_drug_drug_first rel_types drugs (py_random env2) Hr Hd)
    as (m2 & r2 & E2 & H2).
  rewrite E1, E2 in Heq. injection Heq as Hm _.
  rewrite Hlt in H1. rewrite Hge in H2.
  rewrite Hm in H1. rewrite H1 in H2. discriminate H2.
Qed.

(** C8 (the code at the failing input). Whatever the seeded sources
    yield, two runs of [load_decagon_data(use_dummy=True)] that differ
    only in what Python's unseeded [random] generator yields build
    different drug-drug adjacency matrices: with a first draw of 0 the
    first side effect has the edge (0,1), with a first draw of 1000 it does
    not. *)
Theorem dummy_adjacency_depends_on_unseeded_random
    (planted : matrix) (randn : rng Q) :
  ∃ d1 d2,
    load_decagon_data true (dummy_run planted randn (Rng (λ _, 0%Z) 0))
    = Ok d1 ∧
    load_decagon_data true (dummy_run planted randn (Rng (λ _, 1000%Z) 0))
    = Ok d2 ∧
    adj_mats_orig d1 ≠ adj_mats_orig d2.
Proof.
  exists (assemble (dummy_data 19080 645 1317
                      (dummy_run planted randn (Rng (λ _, 0%Z) 0)))),
         (assemble (dummy_data 19080 645 1317
                      (dummy_run planted randn (Rng (λ _, 1000%Z) 0)))).
  split; [reflexivity|]. split; [reflexivity|].
  apply dummy_data_first_pair.
  - apply Nat.lt_0_succ.
  - do 2 apply le_n_S. apply Nat.le_0_l.
  - reflexivity.
  - reflexivity.
Qed.

(** ** The evaluator: failure on inconsistent edges, dropout *)

Lemma raises_bind {A B} (r : result A) (f : A → result B) :
  raises r → raises (r ≫= f).
Proof. intros [e ->]. by exists e. Qed.

Lemma raises_bind_cont {A B} (r : result A) (f : A → result B) :
  (∀ a, r = Ok a → raises (f a)) → raises (r ≫= f).
Proof.
  intros H. destruct r as [a|e]; [by apply H | by exists e].
Qed.

Lemma foldM_raises {A S} (f : S → A → result S) (l : list A) (x : A) :
  x ∈ l → (∀ s, raises (f s x)) → ∀ s, raises (foldM f l s).
Proof.
  intros Hx Hf. induction l as [|y l IH]; intros s.
  - by apply elem_of_nil in Hx.
  - simpl. apply elem_of_cons in Hx as [<-|Hx].
    + apply raises_bind, Hf.
    + apply raises_bind_cont. intros s' _. by apply IH.
Qed.

Section EvaluatorFailure.
  Context {F : Type} (sigmoid : F → score).
  Context (apk : list nat → list nat → nat → Q).
  Context (sess_run : gmap string value → result (nat → nat → option F)).
  Context (edge_type2idx : gmap (nat * nat * nat) nat).
  Context (adj_mats : gmap (nat * nat) (list matrix)).

Lemma score_positive_raises rec et t uv :
  adj_get adj_mats et uv.1 uv.2 ≠ Ok 1%Z →
  raises (score_positive sigmoid adj_mats rec et t uv).
Proof.
  intros H. unfold score_positive.
  apply raises_bind_cont. intros x _.
  destruct (adj_get adj_mats et uv.1 uv.2) as [a|e]; [|by exists e].
  simpl. destruct (decide (a = 1%Z)) as [->|]; [done|by eexists].
Qed.

Lemma score_negative_raises rec et t uv :
  adj_get adj_mats et uv.1 uv.2 ≠ Ok 0%Z →
  raises (score_negative sigmoid adj_mats rec et t uv).
Proof.
  intros H. unfold score_negative.
  apply raises_bind_cont. intros x _.
  destruct (adj_get adj_mats et uv.1 uv.2) as [a|e]; [|by exists e].
  simpl. destruct (decide (a = 0%Z)) as [->|]; [done|by eexists].
Qed.

Lemma score_edges_raises rec edges_pos edges_neg et :
  (∃ pos uv, edges_get edges_pos et = Ok pos ∧ uv ∈ pos ∧
             adj_get adj_mats et uv.1 uv.2 ≠ Ok 1%Z) ∨
  (∃ neg uv, edges_get edges_neg et = Ok neg ∧ uv ∈ neg ∧
             adj_get adj_mats et uv.1 uv.2 ≠ Ok 0%Z) →
  raises (score_edges sigmoid apk adj_mats rec edges_pos edges_neg et).
Proof.
  intros H. unfold score_edges.
  apply raises_bind_cont. intros pos Hpos.
  destruct H as [(pos' & uv & Hpos' & Hin & Hadj)|(neg & uv & Hneg & Hin & Hadj)].
  - rewrite Hpos in Hpos'. injection Hpos' as <-.
    apply raises_bind.
    eapply foldM_raises; [exact Hin|].
    intros t. by apply score_positive_raises.
  - apply raises_bind_cont. intros t _.
    rewrite Hneg. simpl.
    apply raises_bind.
    eapply foldM_raises; [exact Hin|].
    intros t'. by apply score_negative_raises.
Qed.

(** C2. If some pair of the positive list of the evaluated relation does
    not read as 1 in the original adjacency matrix, or some pair of the
    negative list does not read as 0, the call raises. *)
Theorem inconsistent_edges_raise (feed_dict : gmap string value)
    (edges_pos edges_neg : edge_lists) (edge_type : nat * nat * nat) :
  (∃ pos uv, edges_get edges_pos edge_type = Ok pos ∧ uv ∈ pos ∧
             adj_get adj_mats edge_type uv.1 uv.2 ≠ Ok 1%Z) ∨
  (∃ neg uv, edges_get edges_neg edge_type = Ok neg ∧ uv ∈ neg ∧
             adj_get adj_mats edge_type uv.1 uv.2 ≠ Ok 0%Z) →
  raises (get_accuracy_scores sigmoid apk sess_run edge_type2idx adj_mats
            feed_dict edges_pos edges_neg edge_type).2.
Proof.
  intros H. unfold get_accuracy_scores.
  destruct (dict_get edge_type2idx edge_type) as [idx|e]; [|by exists e].
  simpl. apply raises_bind_cont. intros rec _.
  by apply score_edges_raises.
Qed.

Lemma score_positive_checked rec et t uv x a :
  rec uv.1 uv.2 = Some x → adj_get adj_mats et uv.1 uv.2 = Ok a →
  score_positive sigmoid adj_mats rec et t uv
  = if decide (a = 1%Z)
    then Ok {| preds := preds t ++ [sigmoid x];
               preds_neg := preds_neg t;
               actual := actual t ++ [edge_ind t];
               predicted := predicted t ++ [(sigmoid x, edge_ind t)];
               edge_ind := S (edge_ind t) |}
    else Raise (AssertionError "Problem 1").
Proof.
  intros Hx Ha. unfold score_positive, rec_get. rewrite Hx, Ha. reflexivity.
Qed.

Lemma score_negative_checked rec et t uv x a :
  rec uv.1 uv.2 = Some x → adj_get adj_mats et uv.1 uv.2 = Ok a →
  score_negative sigmoid adj_mats rec et t uv
  = if decide (a = 0%Z)
    then Ok {| preds := preds t;
               preds_neg := preds_neg t ++ [sigmoid x];
               actual := actual t;
               predicted := predicted t ++ [(sigmoid x, edge_ind t)];
               edge_ind := S (edge_ind t) |}
    else Raise (AssertionError "Problem 0").
Proof.
  intros Hx Ha. unfold score_negative, rec_get. rewrite Hx, Ha. reflexivity.
Qed.

(** When every listed pair lies inside the score matrix and the adjacency
    matrix, the exception is the failed assertion of the first offending
    pair of the positive list. *)
Lemma foldM_positive_assertion rec et pos t :
  Forall (λ uv, is_Some (rec uv.1 uv.2) ∧
                ∃ a, adj_get adj_mats et uv.1 uv.2 = Ok a) pos →
  Exists (λ uv, adj_get adj_mats et uv.1 uv.2 ≠ Ok 1%Z) pos →
  foldM (score_positive sigmoid adj_mats rec et) pos t
  = Raise (AssertionError "Problem 1").
Proof.
  intros Hall. revert t.
  induction Hall as [|uv pos [[x Hx] [a Ha]] Hall IH]; intros t Hex.
  - by apply Exists_nil in Hex.
  - cbn [foldM]. rewrite (score_positive_checked _ _ _ _ _ _ Hx Ha).
    destruct (decide (a = 1%Z)) as [->|Hne]; [|reflexivity].
    apply Exists_cons in Hex as [Hex|Hex]; [by rewrite Ha in Hex|].
    by apply IH.
Qed.

End EvaluatorFailure.

Lemma inconsistent_edges_raise_witness :
  raises (get_accuracy_scores (λ s : score, s) example_apk
            (λ _, Ok example_rec) example_idx example_adj
            ∅ corrupt_pos example_neg (0, 0, 0)).2.
Proof.
  apply inconsistent_edges_raise.
  left. exists [(0, 1); (0, 2)], (0, 2).
  split; [reflexivity|]. split; [by right; left|].
  vm_compute. discriminate.
Defined.

Example corrupt_positive_is_problem_1 :
  (get_accuracy_scores (λ s : score, s) example_apk
     (λ _, Ok example_rec) example_idx example_adj
     ∅ corrupt_pos example_neg (0, 0, 0)).2
  = Raise (AssertionError "Problem 1").
Proof. vm_compute. reflexivity. Qed.

(** ** The evaluator: what a successful call computes *)

Section EvaluatorSuccess.
  Context {F : Type} (sigmoid : F → score).
  Context (apk : list nat → list nat → nat → Q).
  Context (sess_run : gmap string value → result (nat → nat → option F)).
  Context (edge_type2idx : gmap (nat * nat * nat) nat).
  Context (adj_mats : gmap (nat * nat) (list matrix)).

Lemma after_positive_nil t : after_positive t [] = t.
Proof.
  destruct t. unfold after_positive; simpl.
  by rewrite !app_nil_r, Nat.add_0_r.
Qed.

Lemma after_negative_nil t : after_negative t [] = t.
Proof.
  destruct t. unfold after_negative; simpl.
  by rewrite !app_nil_r, Nat.add_0_r.
Qed.

Lemma after_positive_cons t s ss :
  after_positive
    {| preds := preds t ++ [s]; preds_neg := preds_neg t;
       actual := actual t ++ [edge_ind t];
       predicted := predicted t ++ [(s, edge_ind t)];
       edge_ind := S (edge_ind t) |} ss
  = after_positive t (s :: ss).
Proof.
  unfold after_positive; simpl. rewrite <- !app_assoc. simpl.
  by rewrite Nat.add_succ_r.
Qed.

Lemma after_negative_cons t s ss :
  after_negative
    {| preds := preds t; preds_neg := preds_neg t ++ [s];
       actual := actual t;
       predicted := predicted t ++ [(s, edge_ind t)];
       edge_ind := S (edge_ind t) |} ss
  = after_negative t (s :: ss).
Proof.
  unfold after_negative; simpl. rewrite <- !app_assoc. simpl.
  by rewrite Nat.add_succ_r.
Qed.

Lemma score_positive_inv rec et t uv t' :
  score_positive sigmoid adj_mats rec et t uv = Ok t' →
  ∃ s, scored sigmoid rec uv s ∧ adj_get adj_mats et uv.1 uv.2 = Ok 1%Z ∧
       ∀ ss, after_positive t' ss = after_positive t (s :: ss).
Proof.
  unfold score_positive, rec_get. intros H.
  destruct (rec uv.1 uv.2) as [x|] eqn:Hx; [|discriminate].
  simpl in H.
  destruct (adj_get adj_mats et uv.1 uv.2) as [a|] eqn:Ha; [|discriminate].
  simpl in H. destruct (decide (a = 1%Z)) as [->|]; [|discriminate].
  injection H as <-. exists (sigmoid x).
  split; [by exists x|]. split; [done|].
  intros ss. apply after_positive_cons.
Qed.

Lemma score_negative_inv rec et t uv t' :
  score_negative sigmoid adj_mats rec et t uv = Ok t' →
  ∃ s, scored sigmoid rec uv s ∧ adj_get adj_mats et uv.1 uv.2 = Ok 0%Z ∧
       ∀ ss, after_negative t' ss = after_negative t (s :: ss).
Proof.
  unfold score_negative, rec_get. intros H.
  destruct (rec uv.1 uv.2) as [x|] eqn:Hx; [|discriminate].
  simpl in H.
  destruct (adj_get adj_mats et uv.1 uv.2) as [a|] eqn:Ha; [|discriminate].
  simpl in H. destruct (decide (a = 0%Z)) as [->|]; [|discriminate].
  injection H as <-. exists (sigmoid x).
  split; [by exists x|]. split; [done|].
  intros ss. apply after_negative_cons.
Qed.

(** The loop over the positives succeeds exactly when every pair has a
    score and reads as 1 in the adjacency matrix. *)
Lemma foldM_positive_iff rec et pos t t' :
  foldM (score_positive sigmoid adj_mats rec et) pos t = Ok t' ↔
  ∃ ss, Forall2 (scored sigmoid rec) pos ss ∧
        Forall (λ uv, adj_get adj_mats et uv.1 uv.2 = Ok 1%Z) pos ∧
        t' = after_positive t ss.
Proof.
  revert t. induction pos as [|uv pos IH]; intros t; cbn [foldM].
  - split.
    + intros [= <-]. exists []. by rewrite after_positive_nil.
    + intros (ss & Hss & _ & ->). apply Forall2_nil_inv_l in Hss as ->.
      by rewrite after_positive_nil.
  - split.
    + intros H.
      destruct (score_positive _ _ _ _ t uv) as [t1|] eqn:E; [|discriminate].
      simpl in H. apply IH in H as (ss & Hss & Hadj & ->).
      apply score_positive_inv in E as (s & Hs & Ha & Ht).
      exists (s :: ss). split; [by constructor|]. split; [by constructor|].
      apply Ht.
    + intros (ss & Hss & Hadj & ->).
      apply Forall2_cons_inv_l in Hss as (s & ss' & [x [Hx ->]] & Hss & ->).
      apply Forall_cons in Hadj as [Ha Hadj].
      rewrite (score_positive_checked _ _ _ _ _ _ _ _ Hx Ha).
      rewrite decide_True by done. simpl.
      apply IH. exists ss'. split; [done|]. split; [done|].
      symmetry. apply after_positive_cons.
Qed.

Lemma foldM_negative_iff rec et neg t t' :
  foldM (score_negative sigmoid adj_mats rec et) neg t = Ok t' ↔
  ∃ ss, Forall2 (scored sigmoid rec) neg ss ∧
        Forall (λ uv, adj_get adj_mats et uv.1 uv.2 = Ok 0%Z) neg ∧
        t' = after_negative t ss.
Proof.
  revert t. induction neg as [|uv neg IH]; intros t; cbn [foldM].
  - split.
    + intros [= <-]. exists []. by rewrite after_negative_nil.
    + intros (ss & Hss & _ & ->). apply Forall2_nil_inv_l in Hss as ->.
      by rewrite after_negative_nil.
  - split.
    + intros H.
      destruct (score_negative _ _ _ _ t uv) as [t1|] eqn:E; [|discriminate].
      simpl in H. apply IH in H as (ss & Hss & Hadj & ->).
      apply score_negative_inv in E as (s & Hs & Ha & Ht).
      exists (s :: ss). split; [by constructor|]. split; [by constructor|].
      apply Ht.
    + intros (ss & Hss & Hadj & ->).
      apply Forall2_cons_inv_l in Hss as (s & ss' & [x [Hx ->]] & Hss & ->).
      apply Forall_cons in Hadj as [Ha Hadj].
      rewrite (score_negative_checked _ _ _ _ _ _ _ _ Hx Ha).
      rewrite decide_True by done. simpl.
      apply IH. exists ss'. split; [done|]. split; [done|].
      symmetry. apply after_negative_cons.
Qed.

Lemma after_both (ps ns : list score) :
  after_negative (after_positive (Tally [] [] [] [] 0) ps) ns = tally_of ps ns.
Proof.
  unfold after_negative, after_positive, tally_of; simpl.
  f_equal. rewrite seq_app. simpl.
  rewrite zip_with_app by (by rewrite length_seq). reflexivity.
Qed.

(** Lines 209-241 return exactly when both loops pass, and then return
    the metrics of the tally of the two score lists. *)
Lemma score_edges_iff rec edges_pos edges_neg et m :
  score_edges sigmoid apk adj_mats rec edges_pos edges_neg et = Ok m ↔
  ∃ pos neg ps ns,
    edges_get edges_pos et = Ok pos ∧ edges_get edges_neg et = Ok neg ∧
    Forall2 (scored sigmoid rec) pos ps ∧
    Forall2 (scored sigmoid rec) neg ns ∧
    Forall (λ uv, adj_get adj_mats et uv.1 uv.2 = Ok 1%Z) pos ∧
    Forall (λ uv, adj_get adj_mats et uv.1 uv.2 = Ok 0%Z) neg ∧
    metrics_of apk (tally_of ps ns) = Ok m.
Proof.
  unfold score_edges. split.
  - intros H.
    destruct (edges_get edges_pos et) as [pos|] eqn:Hpos; [|discriminate].
    simpl in H.
    destruct (foldM _ pos _) as [t1|] eqn:E1; [|discriminate].
    simpl in H.
    destruct (edges_get edges_neg et) as [neg|] eqn:Hneg; [|discriminate].
    simpl in H.
    destruct (foldM _ neg _) as [t2|] eqn:E2; [|discriminate].
    simpl in H.
    apply foldM_positive_iff in E1 as (ps & Hps & Hp & ->).
    apply foldM_negative_iff in E2 as (ns & Hns & Hn & ->).
    rewrite after_both in H.
    by exists pos, neg, ps, ns.
  - intros (pos & neg & ps & ns & -> & -> & Hps & Hns & Hp & Hn & Hm).
    simpl.
    rewrite (proj2 (foldM_positive_iff rec et pos _ _)
               (ex_intro _ ps (conj Hps (conj Hp eq_refl)))).
    simpl.
    rewrite (proj2 (foldM_negative_iff rec et neg _ _)
               (ex_intro _ ns (conj Hns (conj Hn eq_refl)))).
    simpl. by rewrite after_both.
Qed.

(** The same for the whole call. *)
Lemma get_accuracy_scores_iff feed_dict edges_pos edges_neg et m :
  (get_accuracy_scores sigmoid apk sess_run edge_type2idx adj_mats
     feed_dict edges_pos edges_neg et).2 = Ok m ↔
  ∃ idx rec,
    edge_type2idx !! et = Some idx ∧
    sess_run (evaluation_feed feed_dict et idx) = Ok rec ∧
    score_edges sigmoid apk adj_mats rec edges_pos edges_neg et = Ok m.
Proof.
  unfold get_accuracy_scores, dict_get. split.
  - destruct (edge_type2idx !! et) as [idx|]; [|discriminate]. simpl.
    destruct (sess_run _) as [rec|] eqn:E; [|discriminate]. simpl.
    intros H. by exists idx, rec.
  - intros (idx & rec & -> & Hrec & H). simpl. by rewrite Hrec.
Qed.

End EvaluatorSuccess.

(** ** The stable sort *)

Section StableSortFacts.
Context {A : Type} (before : A → A → bool).

Lemma insert_sorted_perm (x : A) (l : list A) :
  insert_sorted before x l ≡ₚ x :: l.
Proof.
  induction l as [|y l IH]; simpl; [done|].
  destruct (before y x); [|done].
  rewrite IH. apply Permutation_swap.
Qed.

Lemma stable_sort_perm (l : list A) : stable_sort before l ≡ₚ l.
Proof.
  induction l as [|x l IH]; simpl; [done|].
  rewrite insert_sorted_perm. by rewrite IH.
Qed.

Lemma stable_sort_length (l : list A) :
  length (stable_sort before l) = length l.
Proof. by rewrite stable_sort_perm. Qed.



(** On elements where [before] is a strict weak order the result is
    sorted: nothing has to come before an element to its left. *)
Context (ok : A → Prop).
Context (before_asym :
  ∀ x y, ok x → ok y → before x y = true → before y x = false).
Context (before_ntrans :
  ∀ x y z, ok x → ok y → ok z →
    before y x = false → before z y = false → before z x = false).


End StableSortFacts.

(** ** The metrics on perfectly separated scores *)

Section SeparatedCurve.
Context (n_pos n_neg : nat).
Context (n_pos_pos : 0 < n_pos) (n_neg_pos : 0 < n_neg).




Lemma Qnat_S (n : nat) : (Qnat (S n) == Qnat n + 1)%Q.
Proof.
  unfold Qnat. rewrite Nat2Z.inj_succ. unfold Z.succ.
  rewrite inject_Z_plus. reflexivity.
Qed.

Lemma Qnat_add (n m : nat) : (Qnat (n + m) == Qnat n + Qnat m)%Q.
Proof.
  unfold Qnat. rewrite Nat2Z.inj_add, inject_Z_plus. reflexivity.
Qed.



End SeparatedCurve.

Lemma filter_all {A} (P : A → Prop) `{∀ x, Decision (P x)} (l : list A) :
  Forall P l → filter P l = l.
Proof.
  induction 1 as [|x l Hx Hl IH]; [done|].
  by rewrite filter_cons, decide_True, IH.
Qed.

Lemma filter_none {A} (P : A → Prop) `{∀ x, Decision (P x)} (l : list A) :
  Forall (λ x, ¬ P x) l → filter P l = [].
Proof.
  induction 1 as [|x l Hx Hl IH]; [done|].
  by rewrite filter_cons, decide_False, IH.
Qed.




Lemma zip_labels (qp qn : list Q) :
  zip (qp ++ qn) (replicate (length qp) true ++ replicate (length qn) false)
  = ((λ q, (q, true)) <$> qp) ++ ((λ q, (q, false)) <$> qn).
Proof.
  rewrite zip_with_app by (by rewrite length_replicate).
  by rewrite !zip_with_replicate_r_eq.
Qed.

Lemma count_label_true (a b : nat) :
  count_label true (replicate a true ++ replicate b false) = a.
Proof.
  unfold count_label. rewrite filter_app.
  rewrite filter_all by (apply Forall_replicate; done).
  rewrite filter_none by (apply Forall_replicate; done).
  rewrite app_nil_r. apply length_replicate.
Qed.

Lemma count_label_false (a b : nat) :
  count_label false (replicate a true ++ replicate b false) = b.
Proof.
  unfold count_label. rewrite filter_app.
  rewrite filter_none by (apply Forall_replicate; done).
  rewrite filter_all by (apply Forall_replicate; done).
  apply length_replicate.
Qed.



(** ** The ranking handed to [apk] *)


Lemma binarysort_perm {A} (lt : A → A → bool) (run rest : list A) :
  binarysort lt run rest ≡ₚ run ++ rest.
Proof.
  revert run. induction rest as [|pivot rest IH]; intros run;
    cbn [binarysort].
  - by rewrite app_nil_r.
  - assert (Hp : ∀ k, take k run ++ pivot :: drop k run ≡ₚ pivot :: run)
      by (intros k; by rewrite <- Permutation_middle, take_drop).
    rewrite IH, Hp. cbn [app]. apply Permutation_middle.
Qed.

Lemma list_sort_perm {A} (lt : A → A → bool) (l : list A) :
  list_sort lt l ≡ₚ l.
Proof.
  unfold list_sort. destruct l as [|x [|y l]]; [done..|].
  destruct (count_run lt (x :: y :: l)) as [n descending].
  rewrite binarysort_perm.
  trans (take n (x :: y :: l) ++ drop n (x :: y :: l));
    [|by rewrite take_drop].
  apply Permutation_app; [|done].
  destruct descending; [apply reverse_Permutation|done].
Qed.


Lemma sorted_reverse_perm {B} (l : list (score * B)) :
  sorted_reverse_by_fst l ≡ₚ l.
Proof.
  unfold sorted_reverse_by_fst. destruct (forallb _ l).
  - apply stable_sort_perm.
  - by rewrite reverse_Permutation, list_sort_perm, reverse_Permutation.
Qed.




Section EvaluatorMetrics.
  Context {F : Type} (sigmoid : F → score).
  Context (apk : list nat → list nat → nat → Q).
  Context (sess_run : gmap string value → result (nat → nat → option F)).
  Context (edge_type2idx : gmap (nat * nat * nat) nat).
  Context (adj_mats : gmap (nat * nat) (list matrix)).

Lemma ranking_tally_of (ps ns : list score) :
  ps ++ ns ≠ [] →
  ranking (tally_of ps ns)
  = Ok (map snd (sorted_reverse_by_fst (predicted (tally_of ps ns)))).
Proof.
  intros Hne. unfold ranking.
  destruct (sorted_reverse_by_fst _) as [|c ranked] eqn:E; [|done].
  exfalso. apply (f_equal length) in E.
  rewrite sorted_reverse_perm in E.
  cbn [tally_of predicted] in E.
  rewrite length_zip_with, length_seq, length_app in E.
  destruct (ps ++ ns) eqn:E'; [done|].
  apply (f_equal length) in E'. rewrite length_app in E'. simpl in *. lia.
Qed.

Lemma metrics_of_inv (t : tally) roc aupr apk_sc :
  metrics_of apk t = Ok (roc, aupr, apk_sc) →
  ranking t = Ok (map snd (sorted_reverse_by_fst (predicted t))) ∧
  roc_auc_score (labels_all t) (preds_all t) = Ok roc ∧
  aupr = average_precision_score (labels_all t) (preds_all t) ∧
  apk_sc = apk (actual t) (map snd (sorted_reverse_by_fst (predicted t))) 50.
Proof.
  unfold metrics_of, ranking.
  destruct (sorted_reverse_by_fst (predicted t)) as [|c ranked]; [done|].
  simpl. destruct (roc_auc_score _ _) as [r|]; [|done].
  simpl. by intros [= <- <- <-].
Qed.


End EvaluatorMetrics.

Section EvaluatorResults.
  Context {F : Type} (sigmoid : F → score).
  Context (apk : list nat → list nat → nat → Q).
  Context (sess_run : gmap string value → result (nat → nat → option F)).
  Context (edge_type2idx : gmap (nat * nat * nat) nat).
  Context (adj_mats : gmap (nat * nat) (list matrix)).

Lemma labels_all_tally_of (ps ns : list score) :
  labels_all (tally_of ps ns)
  = replicate (length ps) true ++ replicate (length ns) false.
Proof. reflexivity. Qed.

Lemma preds_all_tally_of (ps ns : list score) :
  preds_all (tally_of ps ns) = map nan_to_num ps ++ map nan_to_num ns.
Proof. unfold preds_all; cbn [tally_of preds preds_neg]. apply map_app. Qed.

Lemma roc_auc_score_defined (a b : nat) (qs : list Q) :
  0 < a → 0 < b →
  ∃ roc, roc_auc_score (replicate a true ++ replicate b false) qs = Ok roc.
Proof.
  intros Ha Hb. unfold roc_auc_score.
  rewrite count_label_true, count_label_false.
  rewrite (proj2 (Nat.ltb_lt _ _) Ha), (proj2 (Nat.ltb_lt _ _) Hb).
  by eexists.
Qed.

(** A call on consistent, non-empty edge lists returns the metrics of the
    tally of the two score lists. *)
Lemma get_accuracy_scores_returns feed_dict edges_pos edges_neg et
    idx rec pos neg ps ns roc :
  edge_type2idx !! et = Some idx →
  sess_run (evaluation_feed feed_dict et idx) = Ok rec →
  edges_get edges_pos et = Ok pos →
  edges_get edges_neg et = Ok neg →
  Forall2 (scored sigmoid rec) pos ps →
  Forall2 (scored sigmoid rec) neg ns →
  Forall (λ uv, adj_get adj_mats et uv.1 uv.2 = Ok 1%Z) pos →
  Forall (λ uv, adj_get adj_mats et uv.1 uv.2 = Ok 0%Z) neg →
  ps ++ ns ≠ [] →
  roc_auc_score (labels_all (tally_of ps ns)) (preds_all (tally_of ps ns))
  = Ok roc →
  (get_accuracy_scores sigmoid apk sess_run edge_type2idx adj_mats
     feed_dict edges_pos edges_neg et).2
  = Ok (roc,
        average_precision_score (labels_all (tally_of ps ns))
          (preds_all (tally_of ps ns)),
        apk (seq 0 (length ps))
          (map snd (sorted_reverse_by_fst (predicted (tally_of ps ns)))) 50).
Proof.
  intros Hidx Hrec Hpos Hneg Hps Hns Hp Hn Hne Hroc.
  apply get_accuracy_scores_iff. exists idx, rec.
  split; [done|]. split; [done|].
  apply score_edges_iff. exists pos, neg, ps, ns.
  do 6 (split; [done|]).
  unfold metrics_of. rewrite (ranking_tally_of _ _ Hne). simpl.
  rewrite Hroc. reflexivity.
Qed.


(** C3. On consistent edge lists with at least one positive and one
    negative, whatever the scores, NaN included, the call returns; the
    score vector given to ROC-AUC and average precision has 0 wherever a
    score was NaN and is otherwise unchanged, and the label vector keeps
    one entry per positive and per negative score. *)
Theorem nan_scores_become_zero (feed_dict : gmap string value)
    (edges_pos edges_neg : edge_lists) (edge_type : nat * nat * nat)
    (idx : nat) (rec : nat → nat → option F)
    (pos neg : list (nat * nat)) (ps ns : list score) :
  edge_type2idx !! edge_type = Some idx →
  sess_run (evaluation_feed feed_dict edge_type idx) = Ok rec →
  edges_get edges_pos edge_type = Ok pos →
  edges_get edges_neg edge_type = Ok neg →
  Forall2 (scored sigmoid rec) pos ps →
  Forall2 (scored sigmoid rec) neg ns →
  Forall (λ uv, adj_get adj_mats edge_type uv.1 uv.2 = Ok 1%Z) pos →
  Forall (λ uv, adj_get adj_mats edge_type uv.1 uv.2 = Ok 0%Z) neg →
  pos ≠ [] → neg ≠ [] →
  let t := tally_of ps ns in
  (∀ i, (ps ++ ns) !! i = Some NaN → preds_all t !! i = Some 0%Q) ∧
  (∀ i q, (ps ++ ns) !! i = Some (Fin q) → preds_all t !! i = Some q) ∧
  length (preds_all t) = length pos + length neg ∧
  length (labels_all t) = length pos + length neg ∧
  ∃ roc apk_sc,
    roc_auc_score (labels_all t) (preds_all t) = Ok roc ∧
    (get_accuracy_scores sigmoid apk sess_run edge_type2idx adj_mats
       feed_dict edges_pos edges_neg edge_type).2
    = Ok (roc, average_precision_score (labels_all t) (preds_all t), apk_sc).
Proof.
  intros Hidx Hrec Hpos Hneg Hps Hns Hp Hn Hpne Hnne t.
  pose proof (Forall2_length _ _ _ Hps) as Hlp.
  pose proof (Forall2_length _ _ _ Hns) as Hln.
  assert (Hmap : ∀ i s, (ps ++ ns) !! i = Some s →
                        preds_all t !! i = Some (nan_to_num s)).
  { intros i s Hi. unfold preds_all, t. cbn [tally_of preds preds_neg].
    change (map nan_to_num) with (fmap (M := list) nan_to_num).
    by rewrite list_lookup_fmap, Hi. }
  split; [intros i Hi; exact (Hmap i NaN Hi)|].
  split; [intros i q Hi; exact (Hmap i (Fin q) Hi)|].
  split.
  { unfold preds_all, t. cbn [tally_of preds preds_neg].
    rewrite length_map, length_app. lia. }
  split.
  { unfold t. rewrite labels_all_tally_of, length_app, !length_replicate. lia. }
  destruct (roc_auc_score_defined (length ps) (length ns) (preds_all t))
    as [roc Hroc].
  { destruct pos; [done|]. simpl in Hlp. lia. }
  { destruct neg; [done|]. simpl in Hln. lia. }
  rewrite <- labels_all_tally_of in Hroc.
  exists roc. eexists. split; [exact Hroc|].
  eapply get_accuracy_scores_returns; eauto.
  intros Happ. apply app_eq_nil in Happ as [-> _]. by destruct pos.
Qed.

(** C10. A call leaves the global feed dictionary with dropout 0,
    whatever it held before; what the call returns depends on the model
    only through feeds in which dropout is 0; apart from the four keys
    the call writes, the dictionary is unchanged, and it is changed
    whenever dropout was not already the integer 0. *)
Theorem evaluation_turns_dropout_off (feed_dict : gmap string value)
    (edges_pos edges_neg : edge_lists) (edge_type : nat * nat * nat) :
  let out := get_accuracy_scores sigmoid apk sess_run edge_type2idx adj_mats
               feed_dict edges_pos edges_neg edge_type in
  out.1 !! "dropout" = Some (VInt 0) ∧
  (∀ sess_run',
     (∀ fd, fd !! "dropout" = Some (VInt 0) → sess_run' fd = sess_run fd) →
     get_accuracy_scores sigmoid apk sess_run' edge_type2idx adj_mats
       feed_dict edges_pos edges_neg edge_type = out) ∧
  (∀ k, k ≠ "dropout" → k ≠ "batch_edge_type_idx" →
        k ≠ "batch_row_edge_type" → k ≠ "batch_col_edge_type" →
        out.1 !! k = feed_dict !! k) ∧
  (feed_dict !! "dropout" ≠ Some (VInt 0) → out.1 ≠ feed_dict).
Proof.
  intros out.
  assert (Hdrop : out.1 !! "dropout" = Some (VInt 0)).
  { unfold out, get_accuracy_scores.
    destruct (dict_get edge_type2idx edge_type) as [idx|e]; simpl.
    - unfold evaluation_feed, with_dropout_off.
      rewrite !lookup_insert_ne by done. apply lookup_insert_eq.
    - apply lookup_insert_eq. }
  split; [exact Hdrop|]. split; [|split].
  - intros sess_run' Hagree. unfold out, get_accuracy_scores.
    destruct (dict_get edge_type2idx edge_type) as [idx|e]; [|done].
    rewrite Hagree; [done|].
    unfold evaluation_feed, with_dropout_off.
    rewrite !lookup_insert_ne by done. apply lookup_insert_eq.
  - intros k H1 H2 H3 H4. unfold out, get_accuracy_scores.
    destruct (dict_get edge_type2idx edge_type) as [idx|e]; simpl.
    + unfold evaluation_feed, with_dropout_off.
      by rewrite !lookup_insert_ne by done.
    + unfold with_dropout_off. by rewrite lookup_insert_ne by done.
  - intros Hne Heq. rewrite Heq in Hdrop. done.
Qed.

End EvaluatorResults.

(** ** The example of the specification *)


Lemma example_consistent :
  Forall (λ uv, adj_get example_adj (0, 0, 0) uv.1 uv.2 = Ok 1%Z)
    [(0, 1); (1, 2)] ∧
  Forall (λ uv, adj_get example_adj (0, 0, 0) uv.1 uv.2 = Ok 0%Z)
    [(0, 2); (2, 0)].
Proof. split; repeat constructor. Qed.



Lemma nan_scores_become_zero_witness :
  let t := tally_of [NaN; Fin (8 # 10)] [Fin (1 # 10); Fin (2 # 10)] in
  preds_all t !! 0 = Some 0%Q ∧
  ∃ roc apk_sc,
    roc_auc_score (labels_all t) (preds_all t) = Ok roc ∧
    (get_accuracy_scores (λ s : score, s) example_apk
       (λ _, Ok example_rec_nan) example_idx example_adj
       ∅ example_pos example_neg (0, 0, 0)).2
    = Ok (roc, average_precision_score (labels_all t) (preds_all t), apk_sc).
Proof.
  intros t.
  destruct (nan_scores_become_zero (λ s : score, s) example_apk
              (λ _, Ok example_rec_nan) example_idx example_adj ∅
              example_pos example_neg (0, 0, 0) 0 example_rec_nan
              [(0, 1); (1, 2)] [(0, 2); (2, 0)]
              [NaN; Fin (8 # 10)] [Fin (1 # 10); Fin (2 # 10)])
    as (Hnan & _ & _ & _ & Hret).
  - reflexivity.
  - reflexivity.
  - reflexivity.
  - reflexivity.
  - repeat constructor; by eexists.
  - repeat constructor; by eexists.
  - apply example_consistent.
  - apply example_consistent.
  - discriminate.
  - discriminate.
  - split; [by apply Hnan | exact Hret].
Defined.

Lemma evaluation_turns_dropout_off_witness :
  (example_eval (<["dropout" := VFloat (1 # 10)]> ∅)).1
  ≠ <["dropout" := VFloat (1 # 10)]> ∅.
Proof.
  apply (evaluation_turns_dropout_off (λ s : score, s) example_apk
           (λ _, Ok example_rec) example_idx example_adj
           (<["dropout" := VFloat (1 # 10)]> ∅)
           example_pos example_neg (0, 0, 0)).
  vm_compute. discriminate.
Defined.

(** Without a negative edge scikit-learn rejects the single-class label
    vector, and without any edge line 235 fails already. *)
Example single_class_raises :
  (get_accuracy_scores (λ s : score, s) example_apk
     (λ _, Ok example_rec) example_idx example_adj
     ∅ example_pos no_edges (0, 0, 0)).2 = Raise ValueError ∧
  (get_accuracy_scores (λ s : score, s) example_apk
     (λ _, Ok example_rec) example_idx example_adj
     ∅ no_edges no_edges (0, 0, 0)).2 = Raise IndexError.
Proof. split; vm_compute; reflexivity. Qed.

(** With a NaN among the positive scores the call still returns. *)
Example nan_example_returns :
  ∃ m, (get_accuracy_scores (λ s : score, s) example_apk
          (λ _, Ok example_rec_nan) example_idx example_adj
          ∅ example_pos example_neg (0, 0, 0)).2 = Ok m.
Proof. eexists. vm_compute. reflexivity. Qed.

(** ** The edge split partitioner *)

Lemma extract_edges_NoDup (symmetric : bool) (m : matrix) :
  NoDup (extract_edges symmetric m).
Proof. apply NoDup_filter, NoDup_elements. Qed.

Lemma shuffle_edges_perm (n : nat) (r : rng nat) (l : list (nat * nat)) :
  length l = n → (shuffle_edges n r l).1 ≡ₚ l.
Proof.
  revert r l. induction n as [|n IH]; intros r l Hlen.
  - by apply nil_length_inv in Hlen as ->.
  - cbn [shuffle_edges draw].
    assert (Hi : stream r (pos r) mod length l < length l)
      by (apply Nat.mod_upper_bound; lia).
    destruct (lookup_lt_is_Some_2 l _ Hi) as [e He]. rewrite He.
    specialize (IH (Rng (stream r) (S (pos r)))
                   (delete (stream r (pos r) mod length l) l)).
    destruct (shuffle_edges n _ _) as [rest r'']. simpl in *.
    rewrite IH by (rewrite length_delete by eauto; lia).
    symmetry. by apply delete_Permutation.
Qed.

Lemma draw_negative_spec retries m chosen r uv r' :
  draw_negative retries m chosen r = (Some uv, r') →
  non_edge m uv ∧ uv ∉ chosen.
Proof.
  revert r. induction retries as [|k IH]; intros r; [done|].
  cbn [draw_negative draw].
  destruct (decide _) as [(Hb & He & Hc)|_]; [|apply IH].
  intros [= <- <-]. by repeat split.
Qed.

Lemma sample_negatives_spec count retries m chosen r negs r' :
  sample_negatives count retries m chosen r = (Ok negs, r') →
  Forall (non_edge m) chosen → NoDup chosen →
  length negs = length chosen + count ∧
  Forall (non_edge m) negs ∧ NoDup negs.
Proof.
  revert chosen r. induction count as [|c IH]; intros chosen r.
  - intros [= <- <-]. by rewrite Nat.add_0_r.
  - cbn [sample_negatives].
    destruct (draw_negative retries m chosen r) as [[uv|] r1] eqn:E; [|done].
    apply draw_negative_spec in E as [Hne Hfresh].
    intros H Hall Hnd. apply IH in H as (Hlen & Hall' & Hnd').
    + rewrite length_app in Hlen. simpl in Hlen. split; [lia|done].
    + apply Forall_app. split; [done|by constructor].
    + apply NoDup_app. split; [done|]. split; [|apply NoDup_singleton].
      intros x Hx ->%list_elem_of_singleton. done.
Qed.

Lemma non_edge_getitem (m : matrix) (uv : nat * nat) :
  non_edge m uv → getitem m uv.1 uv.2 = Ok 0%Z.
Proof. intros [Hb He]. unfold getitem. by rewrite Hb, He. Qed.

(** C1. For any relation and any generator, a split that the partitioner
    returns has pairwise disjoint train, validation and test positives
    whose sizes add up to the number of edges of the relation (their union
    is the edge set, nothing is excluded), and every split has as many
    negatives as positives, all distinct and none of them an edge of the
    relation. *)
Theorem edge_split_integrity (symmetric : bool) (f : Q) (retries : nat)
    (m : matrix) (r r' : rng nat) (s : edge_split) :
  partition_relation symmetric f retries m r = (Ok s, r') →
  ((∀ e, e ∈ train_pos s → e ∉ val_pos s) ∧
   (∀ e, e ∈ train_pos s → e ∉ test_pos s) ∧
   (∀ e, e ∈ val_pos s → e ∉ test_pos s)) ∧
  (NoDup (train_pos s) ∧ NoDup (val_pos s) ∧ NoDup (test_pos s)) ∧
  length (train_pos s) + length (val_pos s) + length (test_pos s)
  = length (extract_edges symmetric m) ∧
  train_pos s ++ val_pos s ++ test_pos s ≡ₚ extract_edges symmetric m ∧
  (length (train_neg s) = length (train_pos s) ∧
   length (val_neg s) = length (val_pos s) ∧
   length (test_neg s) = length (test_pos s)) ∧
  (NoDup (train_neg s) ∧ NoDup (val_neg s) ∧ NoDup (test_neg s)) ∧
  ∀ e, e ∈ train_neg s ++ val_neg s ++ test_neg s →
       getitem m e.1 e.2 = Ok 0%Z.
Proof.
  unfold partition_relation.
  set (edges := extract_edges symmetric m).
  pose proof (shuffle_edges_perm (length edges) r edges eq_refl) as Hperm.
  destruct (shuffle_edges (length edges) r edges) as [sh r0].
  simpl in Hperm.
  set (n := held_out f (length edges)).
  destruct (sample_negatives (length (drop (n + n) sh)) retries m [] r0)
    as [[trf|] r1] eqn:E1; [|done].
  destruct (sample_negatives (length (take n sh)) retries m [] r1)
    as [[vf|] r2] eqn:E2; [|done].
  destruct (sample_negatives (length (take n (drop n sh))) retries m [] r2)
    as [[tf|] r3] eqn:E3; [|done].
  intros [= <- <-]. cbn [train_pos val_pos test_pos train_neg val_neg test_neg].
  apply sample_negatives_spec in E1 as (L1 & A1 & D1); [|constructor..].
  apply sample_negatives_spec in E2 as (L2 & A2 & D2); [|constructor..].
  apply sample_negatives_spec in E3 as (L3 & A3 & D3); [|constructor..].
  assert (Hsplit : sh = take n sh ++ take n (drop n sh) ++ drop (n + n) sh).
  { rewrite <- (drop_drop sh n n), (take_drop n (drop n sh)).
    by rewrite take_drop. }
  assert (Hnd : NoDup sh) by (rewrite Hperm; apply extract_edges_NoDup).
  rewrite Hsplit in Hnd.
  apply NoDup_app in Hnd as (Hv & Hvx & Hnd).
  apply NoDup_app in Hnd as (Ht & Htx & Htr).
  assert (Hall : drop (n + n) sh ++ take n sh ++ take n (drop n sh) ≡ₚ edges).
  { rewrite <- Hperm. rewrite Hsplit at 4.
    rewrite (Permutation_app_comm (drop (n + n) sh)).
    by rewrite <- app_assoc. }
  split; [|split; [done|split; [|split; [done|split; [done|split; [done|]]]]]].
  - split; [|split].
    + intros e He Hev. apply (Hvx e Hev). apply elem_of_app. by right.
    + intros e He Het. by apply (Htx e Het).
    + intros e He Het. apply (Hvx e He). apply elem_of_app. by left.
  - rewrite <- Hall. rewrite !length_app. lia.
  - intros e He. apply non_edge_getitem.
    rewrite !elem_of_app in He.
    destruct He as [He|[He|He]];
      [exact (proj1 (Forall_forall _ _) A1 e He)
      |exact (proj1 (Forall_forall _ _) A2 e He)
      |exact (proj1 (Forall_forall _ _) A3 e He)].
Qed.

Lemma edge_split_integrity_witness :
  (partition_relation true (2 # 10) 50 ring_adj square_rng).1
  = Ok ring_split ∧
  length (train_pos ring_split) + length (val_pos ring_split)
  + length (test_pos ring_split) = length (extract_edges true ring_adj) ∧
  ∀ e, e ∈ train_neg ring_split ++ val_neg ring_split ++ test_neg ring_split →
       getitem ring_adj e.1 e.2 = Ok 0%Z.
Proof.
  assert (H : (partition_relation true (2 # 10) 50 ring_adj square_rng).1
              = Ok ring_split) by (vm_compute; reflexivity).
  split; [exact H|].
  destruct (partition_relation true (2 # 10) 50 ring_adj square_rng)
    as [res r'] eqn:E.
  simpl in H. subst res.
  pose proof (edge_split_integrity true (2 # 10) 50 ring_adj square_rng
                r' ring_split E) as (_ & _ & Hlen & _ & _ & _ & Hneg).
  split; [exact Hlen | exact Hneg].
Defined.

(** A generator that only ever proposes edges exhausts the attempts: the
    partitioner signals it instead of looping. *)
Example sampling_can_be_exhausted :
  (partition_relation true (2 # 10) 50 ring_adj counter_rng).1
  = Raise SamplingExhaustedError.
Proof. vm_compute. reflexivity. Qed.

(** ** The training loop *)

Section TrainingLoopFacts.
  Context {M T F : Type} `{MinibatchIterator M} `{Session T F}.
  Context (sigmoid : F → score).
  Context (apk : list nat → list nat → nat → Q).
  Context (adj_mats : gmap (nat * nat) (list matrix)).
  Context (flag_dropout : Q) (flag_epochs : nat) (n_edge_types : nat).


Lemma evaluate_Raise ev edges_pos edges_neg edge_type (w w1 : world M T) e :
  evaluate sigmoid apk adj_mats ev edges_pos edges_neg edge_type w
  = (w1, Raise e) →
  get_accuracy_scores sigmoid apk (predictions (sess w))
    (edge_type2idx (minibatch w)) adj_mats (feed_dict w)
    edges_pos edges_neg edge_type = (feed_dict w1, Raise e) ∧
  minibatch w1 = minibatch w ∧ sess w1 = sess w ∧
  trace w1 = trace w.
Proof.
  unfold evaluate.
  destruct (get_accuracy_scores _ _ _ _ _ _ _ _ _) as [fd r].
  cbn [fst snd]. intros [= <- ->]. cbn. by rewrite app_nil_r.
Qed.










End TrainingLoopFacts.


(** In the small run validation happens at iterations 0 and 150 of each
    of the two epochs, the session has made 302 optimization steps, and
    the test evaluation comes last. *)
Example toy_run_validations :
  match toy_run with
  | Done w =>
      count_events is_validation (trace w) = 4 ∧
      length (filter (λ e, e = EvOptimize) (trace w)) = 302 ∧
      sess w = 302 ∧
      match last (trace w) with Some (EvTest 0 _) => True | _ => False end
  | _ => False
  end.
Proof. vm_compute. repeat split; reflexivity. Qed.

(** ** More on [load_decagon_data] *)

Lemma foldM_invariant {A S} (P : S → Prop) (f : S → A → result S)
    (l : list A) (s s' : S) :
  (∀ s x s', P s → f s x = Ok s' → P s') →
  P s → foldM f l s = Ok s' → P s'.
Proof.
  intros Hstep. revert s. induction l as [|x l IH]; intros s Hs; simpl.
  - by intros [= <-].
  - destruct (f s x) as [s1|] eqn:E; [|done]. simpl.
    apply IH. by eapply Hstep.
Qed.

Lemma mapM_Ok_inv {A B} (f : A → result B) (l : list A) (ms : list B) :
  mapM f l = Ok ms → Forall2 (λ x m, f x = Ok m) l ms.
Proof.
  revert ms. induction l as [|x l IH]; intros ms; simpl.
  - intros [= <-]. constructor.
  - destruct (f x) as [m|] eqn:E; [|done]. simpl.
    destruct (mapM f l) as [ms'|]; [|done]. simpl.
    intros [= <-]. constructor; [done|by apply IH].
Qed.

Lemma mapM_raises {A B} (f : A → result B) (l : list A) (x : A) :
  x ∈ l → raises (f x) → raises (mapM f l).
Proof.
  intros Hx Hf. induction l as [|y l IH]; [by apply elem_of_nil in Hx|].
  simpl. apply elem_of_cons in Hx as [<-|Hx].
  - by apply raises_bind.
  - apply raises_bind_cont. intros m _. apply raises_bind. by apply IH.
Qed.

Lemma mapM_Ok {A B} (f : A → result B) (l : list A) :
  (∀ x, x ∈ l → ∃ m, f x = Ok m) → ∃ ms, mapM f l = Ok ms.
Proof.
  induction l as [|x l IH]; intros Hf; simpl; [by eexists|].
  destruct (Hf x) as [m ->]; [by left|]. simpl.
  destruct IH as [ms ->]; [intros y Hy; apply Hf; by right|].
  by eexists.
Qed.

Section SymmetricMatrices.

Lemma symmetric01_zeros (n : nat) : symmetric01 n (zeros n n).
Proof.
  split; [done|]. split; [done|].
  intros u v x. unfold zeros; simpl. by rewrite lookup_empty.
Qed.

(** Writing a one at a pair and at its mirror image keeps a matrix
    symmetric. *)
Lemma symmetric01_set_pair (n a b : nat) (m : matrix) :
  a < n → b < n → symmetric01 n m →
  symmetric01 n (set_one (set_one m a b) b a).
Proof.
  intros Ha Hb (Hshape & Hsym & Hval).
  split; [done|]. split.
  - intros u v. unfold set_one; simpl.
    destruct (decide ((b, a) = (u, v))) as [[= <- <-]|Hne1].
    + rewrite lookup_insert_eq.
      destruct (decide ((b, a) = (a, b))) as [E|Hne].
      * by rewrite <- E, lookup_insert_eq.
      * by rewrite lookup_insert_ne, lookup_insert_eq.
    + rewrite lookup_insert_ne by done.
      destruct (decide ((a, b) = (u, v))) as [[= <- <-]|Hne2].
      * by rewrite !lookup_insert_eq.
      * rewrite lookup_insert_ne by done.
        rewrite (lookup_insert_ne _ (b, a) (v, u)) by congruence.
        rewrite (lookup_insert_ne _ (a, b) (v, u)) by congruence.
        apply Hsym.
  - intros u v x. unfold set_one; simpl.
    destruct (decide ((b, a) = (u, v))) as [[= <- <-]|Hne1].
    { rewrite lookup_insert_eq. by intros [= <-]. }
    rewrite lookup_insert_ne by done.
    destruct (decide ((a, b) = (u, v))) as [[= <- <-]|Hne2].
    { rewrite lookup_insert_eq. by intros [= <-]. }
    rewrite lookup_insert_ne by done. apply Hval.
Qed.

(** A symmetric matrix is its own transpose. *)
Lemma symmetric01_transpose (n : nat) (m : matrix) :
  symmetric01 n m → transpose m = m.
Proof.
  intros (Hshape & Hsym & _). destruct m as [sh es]; simpl in *.
  unfold transpose; simpl. subst sh. f_equal.
  apply map_eq. intros [u v]. rewrite lookup_kmap_swap. apply Hsym.
Qed.

Lemma fill_pairs_symmetric (n : nat) (ps : list (nat * nat)) (py : rng Z)
    (mat : matrix) :
  (∀ a b, (a, b) ∈ ps → a < n ∧ b < n) →
  symmetric01 n mat → symmetric01 n (fill_pairs ps py mat).1.
Proof.
  revert py mat. induction ps as [|[d1 d2] ps IH]; intros py mat Hps Hm.
  - done.
  - cbn [fill_pairs draw]. apply IH; [intros a b Hab; apply Hps; by right|].
    destruct (Hps d1 d2 ltac:(left)) as [H1 H2].
    destruct (_ <? _)%Z; [|done]. by apply symmetric01_set_pair.
Qed.

Lemma fill_pairs_zero_diagonal (ps : list (nat * nat)) (py : rng Z)
    (mat : matrix) :
  (∀ a b, (a, b) ∈ ps → a ≠ b) →
  zero_diagonal mat → zero_diagonal (fill_pairs ps py mat).1.
Proof.
  revert py mat. induction ps as [|[d1 d2] ps IH]; intros py mat Hps Hm.
  - done.
  - cbn [fill_pairs draw]. apply IH; [intros a b Hab; apply Hps; by right|].
    pose proof (Hps d1 d2 ltac:(left)) as Hne.
    destruct (_ <? _)%Z; [|done].
    intros u. unfold set_one; simpl.
    rewrite !lookup_insert_ne by congruence. apply Hm.
Qed.

Lemma fill_pairs_draws (ps : list (nat * nat)) (py : rng Z) (mat : matrix) :
  pos (fill_pairs ps py mat).2 = pos py + length ps ∧
  stream (fill_pairs ps py mat).2 = stream py.
Proof.
  revert py mat. induction ps as [|[d1 d2] ps IH]; intros py mat.
  - simpl. split; [lia|done].
  - cbn [fill_pairs draw]. destruct (IH (Rng (stream py) (S (pos py)))
      (if (stream py (pos py) <? 3)%Z
       then set_one (set_one mat d1 d2) d2 d1 else mat)) as [-> ->].
    simpl. split; [lia|done].
Qed.

Lemma combinations2_length (n s : nat) :
  2 * length (combinations2 (seq s n)) = n * (n - 1).
Proof.
  revert s. induction n as [|n IH]; intros s; [done|].
  cbn [seq combinations2]. rewrite length_app, length_map, length_seq.
  specialize (IH (S s)). destruct n as [|n]; [simpl in *; lia|].
  replace (S (S n) - 1) with (S n) by lia.
  replace (S n - 1) with n in IH by lia. nia.
Qed.

Lemma combinations2_upper (n s a b : nat) :
  (a, b) ∈ combinations2 (seq s n) → b < s + n.
Proof.
  revert s. induction n as [|n IH]; intros s; simpl.
  - by intros ?%elem_of_nil.
  - rewrite elem_of_app. intros [H|H].
    + apply list_elem_of_fmap in H as (y & [= -> ->] & Hy).
      apply elem_of_seq in Hy. lia.
    + apply IH in H. lia.
Qed.

Lemma combinations2_range (n a b : nat) :
  (a, b) ∈ combinations2 (seq 0 n) → a < n ∧ b < n ∧ a ≠ b.
Proof.
  intros H. pose proof (combinations2_bounds n 0 a b H) as [_ Hlt].
  pose proof (combinations2_upper n 0 a b H). lia.
Qed.

End SymmetricMatrices.

Lemma foldM_outcome {A S} (P : S → Prop) (Q : exn → Prop)
    (f : S → A → result S) (l : list A) (s : S) :
  (∀ s x, x ∈ l → P s →
     match f s x with Ok s' => P s' | Raise e => Q e end) →
  P s →
  match foldM f l s with Ok s' => P s' | Raise e => Q e end.
Proof.
  revert s. induction l as [|x l IH]; intros s Hstep Hs; simpl; [done|].
  pose proof (Hstep s x ltac:(left) Hs) as Hx.
  destruct (f s x) as [s1|e]; simpl; [|done].
  apply IH; [|done]. intros s2 y Hy. apply Hstep. by right.
Qed.

Lemma foldM_returns {A S} (P : S → Prop) (f : S → A → result S)
    (l : list A) (s : S) :
  (∀ s x, x ∈ l → P s → ∃ s', f s x = Ok s' ∧ P s') →
  P s → ∃ s', foldM f l s = Ok s' ∧ P s'.
Proof.
  revert s. induction l as [|x l IH]; intros s Hstep Hs; simpl; [by eexists|].
  destruct (Hstep s x ltac:(left) Hs) as (s1 & -> & Hs1). simpl.
  apply IH; [|done]. intros s2 y Hy. apply Hstep. by right.
Qed.

Lemma mapM_outcome {A B} (P : B → Prop) (Q : exn → Prop)
    (f : A → result B) (l : list A) :
  (∀ x, x ∈ l → match f x with Ok m => P m | Raise e => Q e end) →
  match mapM f l with Ok ms => Forall P ms | Raise e => Q e end.
Proof.
  induction l as [|x l IH]; intros Hf; simpl; [constructor|].
  pose proof (Hf x ltac:(left)) as Hx.
  destruct (f x) as [m|e]; simpl; [|done].
  assert (IH' := IH (λ y Hy, Hf y ltac:(by right))).
  destruct (mapM f l) as [ms|e]; simpl; [|done].
  by constructor.
Qed.

Section SyntheticDrugPairs.

(** Lines 68-75: the synthetic side effects are [rel_types] symmetric 0/1
    matrices without self-loops, and Python's generator is read exactly
    once per drug pair and side effect. *)
Lemma dummy_drug_drug_spec (rel_types drugs : nat) (py : rng Z) :
  length (dummy_drug_drug rel_types drugs py).1 = rel_types ∧
  Forall (λ m, symmetric01 drugs m ∧ zero_diagonal m)
    (dummy_drug_drug rel_types drugs py).1 ∧
  2 * pos (dummy_drug_drug rel_types drugs py).2
  = 2 * pos py + rel_types * (drugs * (drugs - 1)) ∧
  stream (dummy_drug_drug rel_types drugs py).2 = stream py.
Proof.
  revert py. induction rel_types as [|k IH]; intros py.
  - simpl. repeat split; [constructor|lia].
  - cbn [dummy_drug_drug].
    pose proof (fill_pairs_draws (combinations2 (seq 0 drugs)) py
                  (zeros drugs drugs)) as [Hpos Hstream].
    pose proof (fill_pairs_symmetric drugs (combinations2 (seq 0 drugs)) py
                  (zeros drugs drugs)) as Hsym.
    pose proof (fill_pairs_zero_diagonal (combinations2 (seq 0 drugs)) py
                  (zeros drugs drugs)) as Hdiag.
    destruct (fill_pairs _ py _) as [mat py1]. simpl in *.
    destruct (IH py1) as (Hlen & Hall & Hp & Hs).
    destruct (dummy_drug_drug k drugs py1) as [rest py2]. simpl in *.
    pose proof (combinations2_length drugs 0) as Hc.
    split; [by rewrite Hlen|]. split; [|split; [lia|congruence]].
    constructor; [|done]. split.
    + apply Hsym; [|apply symmetric01_zeros].
      intros a b Hab. apply combinations2_range in Hab. lia.
    + apply Hdiag; [|done].
      intros a b Hab. apply combinations2_range in Hab. lia.
Qed.

End SyntheticDrugPairs.

Section DrugIndex.

Lemma all_drugs_elem (env : environment) (d : string) :
  d ∈ all_drugs env ↔
  ∃ c, c ∈ drug2drug env ∧ (d = c.2.1 ∨ d = c.2.2).
Proof.
  unfold all_drugs.
  assert (H : ∀ l (acc : gset string),
            d ∈ foldl (λ s c, {[c.2.2]} ∪ ({[c.2.1]} ∪ s)) acc l ↔
            d ∈ acc ∨ ∃ c : string * (string * string),
                        c ∈ l ∧ (d = c.2.1 ∨ d = c.2.2)).
  { induction l as [|c l IH]; intros acc; simpl.
    - split; [by left|]. intros [H|(c & Hc & _)]; [done|].
      by apply elem_of_nil in Hc.
    - rewrite IH. rewrite !elem_of_union, !elem_of_singleton. split.
      + intros [[H|[H|H]]|(c' & Hc' & H)].
        * right. exists c. split; [by left|by right].
        * right. exists c. split; [by left|by left].
        * by left.
        * right. exists c'. split; [by right|done].
      + intros [H|(c' & Hc' & H)]; [by left; right; right|].
        apply elem_of_cons in Hc' as [->|Hc'].
        * left. destruct H as [H|H]; [right; by left|by left].
        * right. by exists c'. }
  rewrite H. split; [|by right].
  intros [Hd|Hd]; [|done]. by apply elem_of_empty in Hd.
Qed.

Lemma enumerate_set_lookup (s : gset string) (d : string) (i : nat) :
  enumerate_set s !! d = Some i ↔ elements s !! i = Some d.
Proof.
  unfold enumerate_set.
  assert (Hlen : length (elements s) = size s) by done.
  rewrite <- elem_of_list_to_map
    by (rewrite fst_zip by (rewrite length_seq; lia); apply NoDup_elements).
  rewrite list_elem_of_lookup. split.
  - intros (j & Hj). apply lookup_zip_with_Some in Hj
      as (x & y & [= <- <-] & Hx & Hy).
    apply lookup_seq in Hy as [-> _]. done.
  - intros Hi. exists i. apply lookup_zip_with_Some.
    exists d, i. split; [done|]. split; [done|].
    apply lookup_seq. split; [done|].
    rewrite <- Hlen. by eapply lookup_lt_Some.
Qed.

Lemma enumerate_set_size (s : gset string) :
  size (enumerate_set s) = size s.
Proof.
  unfold enumerate_set.
  rewrite map_size_list_to_map
    by (rewrite fst_zip by (rewrite length_seq; done); apply NoDup_elements).
  rewrite length_zip_with, length_seq.
  change (length (elements s)) with (size s). lia.
Qed.

End DrugIndex.

(** X1. Lines 95-102: the drugs are exactly the members of the
    drug pairs; [drug2idx] numbers them with distinct indices below
    [n_drugs], one per drug. *)
Theorem drug2idx_is_numbering (env : environment) :
  let drug2idx := enumerate_set (all_drugs env) in
  (∀ d, is_Some (drug2idx !! d) ↔
        ∃ c, c ∈ drug2drug env ∧ (d = c.2.1 ∨ d = c.2.2)) ∧
  (∀ d i, drug2idx !! d = Some i → i < size drug2idx) ∧
  (∀ d1 d2 i, drug2idx !! d1 = Some i → drug2idx !! d2 = Some i → d1 = d2) ∧
  (∀ i, i < size drug2idx → ∃ d, drug2idx !! d = Some i) ∧
  size drug2idx = size (all_drugs env).
Proof.
  intros drug2idx.
  assert (Hsize : size drug2idx = size (all_drugs env))
    by apply enumerate_set_size.
  split; [|split; [|split; [|split; [|done]]]].
  - intros d. rewrite <- all_drugs_elem, <- elem_of_elements.
    rewrite list_elem_of_lookup. unfold is_Some, drug2idx.
    split; intros [i Hi]; exists i; by apply enumerate_set_lookup.
  - intros d i Hi. apply enumerate_set_lookup in Hi.
    apply lookup_lt_Some in Hi. rewrite Hsize. done.
  - intros d1 d2 i H1 H2.
    apply enumerate_set_lookup in H1, H2. congruence.
  - intros i Hi. rewrite Hsize in Hi.
    destruct (lookup_lt_is_Some_2 (elements (all_drugs env)) i Hi) as [d Hd].
    exists d. by apply enumerate_set_lookup.
Qed.

Section RealData.

Lemma assoc_get_error {V} (d : list (string * V)) (k : string) (e : exn) :
  assoc_get d k = Raise e → e = KeyError.
Proof.
  induction d as [|[k' v] d IH]; simpl; [by intros [= <-]|].
  destruct (decide (k' = k)); [done|apply IH].
Qed.

Lemma in_bounds_square (n : nat) (m : matrix) (u v : nat) :
  shape m = (n, n) → u < n → v < n → in_bounds m u v = true.
Proof.
  intros Hs Hu Hv. unfold in_bounds. rewrite Hs. simpl.
  by rewrite (proj2 (Nat.ltb_lt _ _) Hu), (proj2 (Nat.ltb_lt _ _) Hv).
Qed.

(** Lines 136-145: the matrix of a side effect is symmetric with 0/1
    entries; the only way the loop fails is a side-effect record whose
    combination is not in [drug2drug]. *)
Lemma real_side_effect_outcome (env : environment) (drugs : nat)
    (drug2idx : gmap string nat) (se : string) :
  (∀ d i, drug2idx !! d = Some i → i < drugs) →
  match real_side_effect env drugs drug2idx se with
  | Ok m => symmetric01 drugs m
  | Raise e => e = KeyError
  end.
Proof.
  intros Hidx. unfold real_side_effect.
  apply (foldM_outcome (symmetric01 drugs) (λ e, e = KeyError));
    [|apply symmetric01_zeros].
  intros mat cs _ Hm.
  destruct (bool_decide (se ∈ cs.2)); [|done].
  destruct (assoc_get (drug2drug env) cs.1) as [dd|e] eqn:E; simpl;
    [|by eapply assoc_get_error].
  destruct (drug2idx !! dd.1) as [i1|] eqn:E1; [|done].
  destruct (drug2idx !! dd.2) as [i2|] eqn:E2; [|done].
  apply Hidx in E1, E2.
  unfold setitem_one.
  rewrite (in_bounds_square drugs mat i1 i2) by (done || apply Hm). simpl.
  rewrite (in_bounds_square drugs (set_one mat i1 i2) i2 i1)
    by (done || apply Hm).
  by apply symmetric01_set_pair.
Qed.

Lemma real_side_effect_returns (env : environment) (drugs : nat)
    (drug2idx : gmap string nat) (se : string) :
  (∀ d i, drug2idx !! d = Some i → i < drugs) →
  (∀ cs, cs ∈ drug2se env → se ∈ cs.2 →
         ∃ dd, assoc_get (drug2drug env) cs.1 = Ok dd) →
  ∃ m, real_side_effect env drugs drug2idx se = Ok m.
Proof.
  intros Hidx Hkeys. unfold real_side_effect.
  destruct (foldM_returns (λ m, shape m = (drugs, drugs))
              (λ mat cs,
                 if bool_decide (se ∈ cs.2) then
                   dd ← assoc_get (drug2drug env) cs.1;
                   match drug2idx !! dd.1, drug2idx !! dd.2 with
                   | Some d1_idx, Some d2_idx =>
                       mat' ← setitem_one mat d1_idx d2_idx;
                       setitem_one mat' d2_idx d1_idx
                   | _, _ => Ok mat
                   end
                 else Ok mat)
              (drug2se env) (zeros drugs drugs)) as (m & Hm & _);
    [|done|by exists m].
  intros mat cs Hcs Hshape.
  destruct (bool_decide (se ∈ cs.2)) eqn:Hse; [|by exists mat].
  apply bool_decide_eq_true in Hse.
  destruct (Hkeys cs Hcs Hse) as [dd ->]. simpl.
  destruct (drug2idx !! dd.1) as [i1|] eqn:E1; [|by exists mat].
  destruct (drug2idx !! dd.2) as [i2|] eqn:E2; [|by exists mat].
  apply Hidx in E1, E2. unfold setitem_one.
  rewrite (in_bounds_square drugs mat i1 i2) by done. simpl.
  rewrite (in_bounds_square drugs (set_one mat i1 i2) i2 i1) by done.
  by eexists.
Qed.

Lemma real_side_effect_missing (env : environment) (drugs : nat)
    (drug2idx : gmap string nat) (se : string) (cs : string * list string) :
  cs ∈ drug2se env → se ∈ cs.2 →
  assoc_get (drug2drug env) cs.1 = Raise KeyError →
  raises (real_side_effect env drugs drug2idx se).
Proof.
  intros Hcs Hse Hmiss. unfold real_side_effect.
  eapply foldM_raises; [exact Hcs|].
  intros mat. rewrite bool_decide_eq_true_2 by done.
  rewrite Hmiss. by eexists.
Qed.

(** Lines 117-126: the gene-drug matrix is built whenever the gene
    indices lie below the number of genes; otherwise the assignment is out
    of range. *)
Lemma real_gene_drug_outcome (env : environment) (genes drugs : nat)
    (drug2idx : gmap string nat) :
  match real_gene_drug env genes drugs drug2idx with
  | Ok m => shape m = (genes, drugs)
  | Raise e => e = IndexError
  end.
Proof.
  unfold real_gene_drug.
  apply (foldM_outcome (λ m, shape m = (genes, drugs)) (λ e, e = IndexError));
    [|done].
  intros mat dp _ Hm.
  destruct (drug2idx !! dp.1) as [drug_idx|]; [|done].
  apply (foldM_outcome (λ m, shape m = (genes, drugs))
           (λ e, e = IndexError)); [|done].
  intros mat' protein _ Hm'.
  destruct (gene2idx env !! protein) as [gene_idx|]; [|done].
  unfold setitem_one. by destruct (in_bounds mat' gene_idx drug_idx).
Qed.

Lemma real_gene_drug_returns (env : environment) (genes drugs : nat)
    (drug2idx : gmap string nat) :
  (∀ d i, drug2idx !! d = Some i → i < drugs) →
  (∀ p i, gene2idx env !! p = Some i → i < genes) →
  ∃ m, real_gene_drug env genes drugs drug2idx = Ok m.
Proof.
  intros Hd Hg. unfold real_gene_drug.
  destruct (foldM_returns (λ m, shape m = (genes, drugs))
              (λ mat dp,
                 match drug2idx !! dp.1 with
                 | None => Ok mat
                 | Some drug_idx =>
                     foldM
                       (λ mat protein,
                          match gene2idx env !! protein with
                          | None => Ok mat
                          | Some gene_idx => setitem_one mat gene_idx drug_idx
                          end)
                       dp.2 mat
                 end)
              (drug2proteins env) (zeros genes drugs)) as (m & Hm & _);
    [|done|by exists m].
  intros mat dp _ Hshape.
  destruct (drug2idx !! dp.1) as [drug_idx|] eqn:E; [|by exists mat].
  apply Hd in E.
  apply (foldM_returns (λ m, shape m = (genes, drugs))); [|done].
  intros mat' protein _ Hshape'.
  destruct (gene2idx env !! protein) as [gene_idx|] eqn:E'; [|by exists mat'].
  apply Hg in E'. unfold setitem_one, in_bounds. rewrite Hshape'. simpl.
  rewrite (proj2 (Nat.ltb_lt _ _) E'), (proj2 (Nat.ltb_lt _ _) E). simpl.
  by eexists.
Qed.

Lemma unique_se_elem (env : environment) (se : string) :
  se ∈ unique_se env ↔ ∃ cs, cs ∈ drug2se env ∧ se ∈ cs.2.
Proof.
  unfold unique_se.
  assert (H : ∀ l (acc : gset string),
            se ∈ foldl (λ s c, list_to_set c.2 ∪ s) acc l ↔
            se ∈ acc ∨ ∃ cs : string * list string, cs ∈ l ∧ se ∈ cs.2).
  { induction l as [|c l IH]; intros acc; simpl.
    - split; [by left|]. intros [H|(c & Hc & _)]; [done|].
      by apply elem_of_nil in Hc.
    - rewrite IH, elem_of_union, elem_of_list_to_set. split.
      + intros [[H|H]|(c' & Hc' & H)].
        * right. exists c. split; [by left|done].
        * by left.
        * right. exists c'. split; [by right|done].
      + intros [H|(c' & Hc' & H)]; [by left; right|].
        apply elem_of_cons in Hc' as [->|Hc'].
        * left. by left.
        * right. by exists c'. }
  rewrite H. split; [|by right].
  intros [Hd|Hd]; [|done]. by apply elem_of_empty in Hd.
Qed.

Lemma drug_index_bound (env : environment) (d : string) (i : nat) :
  enumerate_set (all_drugs env) !! d = Some i →
  i < size (enumerate_set (all_drugs env)).
Proof.
  intros H. apply enumerate_set_lookup in H as Hl.
  apply lookup_lt_Some in Hl.
  by rewrite enumerate_set_size.
Qed.

End RealData.

Lemma dummy_data_facts (genes drugs rel_types : nat) (env : environment) :
  n_genes (dummy_data genes drugs rel_types env) = genes ∧
  n_drugs (dummy_data genes drugs rel_types env) = drugs ∧
  length (drug_drug_adj_list (dummy_data genes drugs rel_types env))
  = rel_types ∧
  Forall (λ m, symmetric01 drugs m ∧ zero_diagonal m)
    (drug_drug_adj_list (dummy_data genes drugs rel_types env)).
Proof.
  destruct (dummy_drug_drug_spec rel_types drugs (py_random env))
    as (Hlen & Hall & _ & _).
  split; [reflexivity|]. split; [reflexivity|]. by split.
Qed.

Lemma symmetric_transposes (n : nat) (L : list matrix) :
  Forall (symmetric01 n) L → map transpose L = L.
Proof.
  induction 1 as [|m L Hm HL IH]; [done|]. simpl.
  by rewrite IH, (symmetric01_transpose _ _ Hm).
Qed.

Lemma symmetric_shapes (n : nat) (L : list matrix) :
  Forall (symmetric01 n) L → shape <$> L = replicate (length L) (n, n).
Proof.
  induction 1 as [|m L Hm HL IH]; [done|].
  rewrite fmap_cons, IH. cbn [length replicate]. by rewrite (proj1 Hm).
Qed.

Lemma load_decagon_data_symmetric (use_dummy : bool) (env : environment)
    (d : decagon_data) :
  load_decagon_data use_dummy env = Ok d →
  ∃ raw, d = assemble raw ∧ raw_consistent raw ∧
         Forall (symmetric01 (n_drugs raw)) (drug_drug_adj_list raw) ∧
         (use_dummy = true →
          n_genes raw = 19080 ∧ n_drugs raw = 645 ∧
          length (drug_drug_adj_list raw) = 1317 ∧
          Forall zero_diagonal (drug_drug_adj_list raw)).
Proof.
  unfold load_decagon_data. destruct use_dummy.
  - intros [= <-]. exists (dummy_data 19080 645 1317 env).
    destruct (dummy_data_facts 19080 645 1317 env) as (Hg & Hd & Hlen & Hall).
    split; [reflexivity|]. split; [apply dummy_data_consistent|]. split.
    + rewrite Hd. eapply Forall_impl; [exact Hall|]. by intros m [Hm _].
    + intros _. split; [exact Hg|]. split; [exact Hd|]. split; [exact Hlen|].
      eapply Forall_impl; [exact Hall|]. by intros m [_ Hm].
  - destruct (real_data env) as [raw|] eqn:E; [|done].
    intros [= <-]. exists raw. split; [reflexivity|].
    split; [by eapply real_data_consistent|]. split; [|done].
    revert E. unfold real_data.
    destruct (real_gene_drug _ _ _ _) as [gd|]; [|done].
    cbn [mbind result_bind].
    pose proof (mapM_outcome
                  (symmetric01 (size (enumerate_set (all_drugs env))))
                  (λ _, True)
                  (real_side_effect env
                     (size (enumerate_set (all_drugs env)))
                     (enumerate_set (all_drugs env)))
                  (elements (unique_se env))) as Hm.
    destruct (mapM _ _) as [dd|]; [|done].
    intros [= <-]. cbn [drug_drug_adj_list n_drugs].
    apply Hm. intros se _.
    pose proof (real_side_effect_outcome env
                  (size (enumerate_set (all_drugs env)))
                  (enumerate_set (all_drugs env)) se
                  (drug_index_bound env)) as Hse.
    by destruct (real_side_effect _ _ _ _).
Qed.

Lemma assemble_lookups (raw : raw_data) :
  num_feat (assemble raw) !! 0 = Some (n_genes raw) ∧
  num_feat (assemble raw) !! 1 = Some (n_drugs raw) ∧
  nonzero_feat (assemble raw) !! 0 = Some (n_genes raw) ∧
  nonzero_feat (assemble raw) !! 1 = Some (n_drugs raw) ∧
  adj_mats_orig (assemble raw) !! (1, 1)
  = Some (drug_drug_adj_list raw ++ map transpose (drug_drug_adj_list raw)) ∧
  adj_mats_orig (assemble raw) !! (0, 0)
  = Some [gene_adj raw; transpose (gene_adj raw)] ∧
  adj_mats_orig (assemble raw) !! (0, 1) = Some [gene_drug_adj raw] ∧
  adj_mats_orig (assemble raw) !! (1, 0) = Some [drug_gene_adj raw].
Proof.
  cbn [assemble num_feat nonzero_feat adj_mats_orig].
  repeat split;
    repeat first [rewrite lookup_insert_eq | rewrite lookup_insert_ne by done];
    reflexivity.
Qed.

(** X2. Lines 68-75, 132-145 and 156. In both branches every drug-drug
    matrix is a symmetric 0/1 matrix with one row and column per drug; the
    transposes the store appends are therefore copies of the matrices
    themselves, and all stored shapes of the pair (1,1) are
    [(n_drugs, n_drugs)]. *)
Theorem drug_drug_relations_symmetric (use_dummy : bool) (env : environment)
    (d : decagon_data) :
  load_decagon_data use_dummy env = Ok d →
  ∃ n L,
    num_feat d !! 1 = Some n ∧
    adj_mats_orig d !! (1, 1) = Some (L ++ L) ∧
    Forall (symmetric01 n) L ∧
    Forall (λ m, ∀ u v, getitem m u v = getitem m v u) L ∧
    edge_type2dim d !! (1, 1) = Some (replicate (2 * length L) (n, n)).
Proof.
  intros H. apply load_decagon_data_symmetric in H
    as (raw & -> & _ & Hsym & _).
  exists (n_drugs raw), (drug_drug_adj_list raw).
  pose proof (symmetric_transposes _ _ Hsym) as Htr.
  destruct (assemble_lookups raw) as (_ & Hn & _ & _ & Hadj & _).
  split; [exact Hn|]. split; [by rewrite Hadj, Htr|].
  split; [done|]. split.
  - eapply Forall_impl; [exact Hsym|]. intros m Hm u v.
    rewrite <- (symmetric01_transpose _ _ Hm) at 1.
    apply transpose_getitem.
  - cbn [assemble edge_type2dim]. rewrite lookup_fmap, lookup_insert_eq.
    cbn [fmap option_fmap option_map]. f_equal. rewrite Htr.
    change (map shape) with (fmap (M := list) shape).
    rewrite fmap_app.
    replace (2 * length (drug_drug_adj_list raw))
      with (length (drug_drug_adj_list raw)
            + length (drug_drug_adj_list raw)) by lia.
    rewrite replicate_add.
    by rewrite (symmetric_shapes _ _ Hsym).
Qed.

Lemma drug_drug_relations_symmetric_witness :
  ∃ n L,
    num_feat small_data !! 1 = Some n ∧
    adj_mats_orig small_data !! (1, 1) = Some (L ++ L) ∧
    Forall (symmetric01 n) L ∧
    Forall (λ m, ∀ u v, getitem m u v = getitem m v u) L ∧
    edge_type2dim small_data !! (1, 1) = Some (replicate (2 * length L) (n, n)).
Proof.
  apply (drug_drug_relations_symmetric false small_env small_data).
  vm_compute. reflexivity.
Defined.

Lemma dummy_data_counts_sized (genes drugs rel_types : nat)
    (env : environment) :
  ∃ L,
    adj_mats_orig (assemble (dummy_data genes drugs rel_types env)) !! (1, 1)
    = Some (L ++ L) ∧
    length L = rel_types ∧
    Forall (λ m, shape m = (drugs, drugs) ∧ zero_diagonal m) L ∧
    num_feat (assemble (dummy_data genes drugs rel_types env)) !! 0
    = Some genes ∧
    num_feat (assemble (dummy_data genes drugs rel_types env)) !! 1
    = Some drugs.
Proof.
  destruct (dummy_data_facts genes drugs rel_types env)
    as (Hg & Hd & Hlen & Hall).
  destruct (assemble_lookups (dummy_data genes drugs rel_types env))
    as (Hn0 & Hn1 & _ & _ & Hadj & _).
  exists (drug_drug_adj_list (dummy_data genes drugs rel_types env)).
  assert (Hsym : Forall (symmetric01 drugs)
                   (drug_drug_adj_list (dummy_data genes drugs rel_types env)))
    by (eapply Forall_impl; [exact Hall|]; by intros m [Hm _]).
  split; [by rewrite Hadj, (symmetric_transposes _ _ Hsym)|].
  split; [exact Hlen|]. split.
  - eapply Forall_impl; [exact Hall|]. intros m [Hm Hz].
    split; [apply Hm|exact Hz].
  - split; [by rewrite Hn0, Hg | by rewrite Hn1, Hd].
Qed.

(** X3. Lines 54-76. The synthetic branch always returns: 1317 side-effect
    matrices over 645 drugs, none with a self-loop, each stored twice,
    with 19080 gene and 645 drug features. *)
Theorem dummy_data_counts (env : environment) :
  ∃ d L,
    load_decagon_data true env = Ok d ∧
    adj_mats_orig d !! (1, 1) = Some (L ++ L) ∧
    length L = 1317 ∧
    Forall (λ m, shape m = (645, 645) ∧ zero_diagonal m) L ∧
    num_feat d !! 0 = Some 19080 ∧ num_feat d !! 1 = Some 645.
Proof.
  destruct (dummy_data_counts_sized 19080 645 1317 env)
    as (L & H1 & H2 & H3 & H4 & H5).
  exists (assemble (dummy_data 19080 645 1317 env)), L.
  split; [reflexivity|].
  split; [exact H1|]. split; [exact H2|]. split; [exact H3|].
  split; [exact H4|exact H5].
Qed.

(** X4. Lines 79-147. The real-data branch returns whenever every gene index
    lies below the number of genes and every side-effect record with at
    least one side effect names a combination that [drug2drug] knows. *)
Theorem real_data_loads (env : environment) :
  (∀ p i, gene2idx env !! p = Some i → i < size (gene2idx env)) →
  (∀ cs, cs ∈ drug2se env → cs.2 ≠ [] →
         ∃ dd, assoc_get (drug2drug env) cs.1 = Ok dd) →
  ∃ d, load_decagon_data false env = Ok d ∧
       num_feat d !! 0 = Some (size (gene2idx env)) ∧
       num_feat d !! 1 = Some (size (all_drugs env)).
Proof.
  intros Hg Hkeys. unfold load_decagon_data, real_data.
  destruct (real_gene_drug_returns env (size (gene2idx env))
              (size (enumerate_set (all_drugs env)))
              (enumerate_set (all_drugs env))
              (drug_index_bound env) Hg) as [gd ->].
  cbn [mbind result_bind].
  destruct (mapM_Ok
              (real_side_effect env (size (enumerate_set (all_drugs env)))
                 (enumerate_set (all_drugs env)))
              (elements (unique_se env))) as [dd ->].
  { intros se _. apply real_side_effect_returns; [apply drug_index_bound|].
    intros cs Hcs Hse. apply Hkeys; [done|].
    intros Hnil. rewrite Hnil in Hse. by apply elem_of_nil in Hse. }
  eexists. split; [reflexivity|].
  split; [reflexivity|].
  cbn [assemble num_feat n_drugs]. rewrite lookup_insert_eq.
  f_equal. apply enumerate_set_size.
Qed.

Lemma small_env_gene_indices (p : string) (i : nat) :
  gene2idx small_env !! p = Some i → i < size (gene2idx small_env).
Proof.
  assert (Hsz : size (gene2idx small_env) = 2) by (vm_compute; reflexivity).
  rewrite Hsz. unfold small_env; cbn [gene2idx].
  intros [[_ <-]|[_ H]]%lookup_insert_Some; [lia|].
  apply lookup_insert_Some in H as [[_ <-]|[_ H]]; [lia|].
  by rewrite lookup_empty in H.
Qed.

Lemma real_data_loads_witness :
  ∃ d, load_decagon_data false small_env = Ok d ∧
       num_feat d !! 0 = Some (size (gene2idx small_env)) ∧
       num_feat d !! 1 = Some (size (all_drugs small_env)).
Proof.
  apply real_data_loads.
  - apply small_env_gene_indices.
  - intros cs Hcs _.
    repeat (apply elem_of_cons in Hcs as [->|Hcs]; [by eexists|]).
    by apply elem_of_nil in Hcs.
Defined.

(** X5. Line 139. A side-effect record whose combination is missing from
    [drug2drug] makes the real-data branch fail; the exception is the
    [KeyError] of that lookup unless the gene-drug loop has already failed
    with an index out of range. *)
Theorem missing_combination_raises (env : environment)
    (cs : string * list string) (se : string) :
  cs ∈ drug2se env → se ∈ cs.2 →
  assoc_get (drug2drug env) cs.1 = Raise KeyError →
  ∃ e, load_decagon_data false env = Raise e ∧
       (e = KeyError ∨ e = IndexError) ∧
       ((∀ p i, gene2idx env !! p = Some i → i < size (gene2idx env)) →
        e = KeyError).
Proof.
  intros Hcs Hse Hmiss. unfold load_decagon_data, real_data.
  pose proof (real_gene_drug_outcome env (size (gene2idx env))
                (size (enumerate_set (all_drugs env)))
                (enumerate_set (all_drugs env))) as Hgd.
  pose proof (real_gene_drug_returns env (size (gene2idx env))
                (size (enumerate_set (all_drugs env)))
                (enumerate_set (all_drugs env))
                (drug_index_bound env)) as Hret.
  destruct (real_gene_drug _ _ _ _) as [gd|e].
  - cbn [mbind result_bind].
    pose proof (mapM_outcome (λ _, True) (λ e, e = KeyError)
                  (real_side_effect env
                     (size (enumerate_set (all_drugs env)))
                     (enumerate_set (all_drugs env)))
                  (elements (unique_se env))) as Hout.
    assert (Hr : raises (mapM
                  (real_side_effect env
                     (size (enumerate_set (all_drugs env)))
                     (enumerate_set (all_drugs env)))
                  (elements (unique_se env)))).
    { apply mapM_raises with se.
      - apply elem_of_elements, unique_se_elem. by exists cs.
      - by eapply real_side_effect_missing. }
    destruct Hr as [e He]. rewrite He in Hout |- *.
    exists e. split; [reflexivity|].
    assert (e = KeyError) as ->; [|by auto].
    apply Hout. intros x _.
    pose proof (real_side_effect_outcome env
                  (size (enumerate_set (all_drugs env)))
                  (enumerate_set (all_drugs env)) x
                  (drug_index_bound env)) as Hx.
    by destruct (real_side_effect _ _ _ _).
  - exists e. split; [reflexivity|]. split; [by right|].
    intros Hg. by destruct (Hret Hg).
Qed.

Lemma missing_combination_raises_witness :
  ∃ e, load_decagon_data false broken_env = Raise e ∧
       (e = KeyError ∨ e = IndexError) ∧
       ((∀ p i, gene2idx broken_env !! p = Some i →
                i < size (gene2idx broken_env)) →
        e = KeyError).
Proof.
  apply (missing_combination_raises broken_env ("c9", ["s2"]) "s2").
  - right. left.
  - left.
  - reflexivity.
Defined.

Example broken_env_is_KeyError :
  load_decagon_data false broken_env = Raise KeyError.
Proof. vm_compute. reflexivity. Qed.

Lemma sum_edge_types (a b c e : nat) :
  map_fold (λ (_ : nat * nat) n acc, n + acc) 0
    (<[(1, 1) := a]> (<[(1, 0) := b]> (<[(0, 1) := c]>
       (<[(0, 0) := e]> (∅ : gmap (nat * nat) nat)))))
  = a + (b + (c + e)).
Proof.
  rewrite map_fold_insert_L;
    [|intros; lia|by rewrite !lookup_insert_ne, lookup_empty by done].
  rewrite map_fold_insert_L;
    [|intros; lia|by rewrite !lookup_insert_ne, lookup_empty by done].
  rewrite map_fold_insert_L;
    [|intros; lia|by rewrite !lookup_insert_ne, lookup_empty by done].
  rewrite map_fold_insert_L; [|intros; lia|apply lookup_empty].
  rewrite map_fold_empty. lia.
Qed.

Lemma assemble_relation_counts (raw : raw_data) :
  edge_types (assemble raw)
  = <[(1, 1) := 2 * length (drug_drug_adj_list raw)]>
      (<[(1, 0) := 1]> (<[(0, 1) := 1]> (<[(0, 0) := 2]> ∅))) ∧
  num_edge_types (assemble raw) = 4 + 2 * length (drug_drug_adj_list raw).
Proof.
  assert (He : edge_types (assemble raw)
    = <[(1, 1) := 2 * length (drug_drug_adj_list raw)]>
        (<[(1, 0) := 1]> (<[(0, 1) := 1]> (<[(0, 0) := 2]> ∅)))).
  { cbn [assemble edge_types].
    rewrite !fmap_insert, fmap_empty. cbn [length].
    rewrite length_app, length_map. f_equal. lia. }
  split; [exact He|].
  change (num_edge_types (assemble raw))
    with (map_fold (λ (_ : nat * nat) n acc, n + acc) 0
            (edge_types (assemble raw))).
  rewrite He, sum_edge_types. lia.
Qed.

(** X6. Lines 152-157 and 185-194. The store has exactly the four
    node-type pairs, with 2, 1, 1 and [2 L] relations, [num_edge_types] is
    [4 + 2 L], every pair has a decoder, [dedicom] exactly for the
    drug-drug pair, and the shape table lists one shape per relation. *)
Theorem relation_counts (use_dummy : bool) (env : environment)
    (d : decagon_data) :
  load_decagon_data use_dummy env = Ok d →
  ∃ L,
    edge_types d !! (0, 0) = Some 2 ∧ edge_types d !! (0, 1) = Some 1 ∧
    edge_types d !! (1, 0) = Some 1 ∧ edge_types d !! (1, 1) = Some (2 * L) ∧
    (∀ k, k ≠ (0, 0) → k ≠ (0, 1) → k ≠ (1, 0) → k ≠ (1, 1) →
          edge_types d !! k = None ∧ adj_mats_orig d !! k = None ∧
          edge_type2decoder d !! k = None) ∧
    num_edge_types d = 4 + 2 * L ∧
    (∀ k ms, adj_mats_orig d !! k = Some ms →
             edge_types d !! k = Some (length ms) ∧
             edge_type2dim d !! k = Some (map shape ms) ∧
             edge_type2decoder d !! k
             = Some (if decide (k = (1, 1)) then dedicom else bilinear)) ∧
    (use_dummy = true → L = 1317 ∧ num_edge_types d = 2638).
Proof.
  intros H. apply load_decagon_data_symmetric in H
    as (raw & -> & _ & _ & Hdummy).
  destruct (assemble_relation_counts raw) as [He Hn].
  exists (length (drug_drug_adj_list raw)).
  rewrite He, Hn.
  split; [by rewrite !lookup_insert_ne, lookup_insert_eq by done|].
  split; [by rewrite !lookup_insert_ne, lookup_insert_eq by done|].
  split; [by rewrite !lookup_insert_ne, lookup_insert_eq by done|].
  split; [by rewrite lookup_insert_eq|].
  split.
  { intros k H0 H1 H2 H3. cbn [assemble adj_mats_orig edge_type2decoder].
    by rewrite !lookup_insert_ne, !lookup_empty by done. }
  split; [done|]. split.
  - intros k ms Hk.
    assert (Hty : edge_types (assemble raw) !! k = Some (length ms)).
    { change (edge_types (assemble raw))
        with (length <$> adj_mats_orig (assemble raw)).
      by rewrite lookup_fmap, Hk. }
    rewrite <- He. split; [exact Hty|]. split.
    + change (edge_type2dim (assemble raw))
        with (map shape <$> adj_mats_orig (assemble raw)).
      by rewrite lookup_fmap, Hk.
    + cbn [assemble adj_mats_orig edge_type2decoder] in Hk |- *.
      destruct (decide (k = (1, 1))) as [->|H3];
        [by rewrite lookup_insert_eq|].
      rewrite lookup_insert_ne by done.
      rewrite lookup_insert_ne in Hk by done.
      destruct (decide (k = (1, 0))) as [->|H2];
        [by rewrite lookup_insert_eq|].
      rewrite lookup_insert_ne by done.
      rewrite lookup_insert_ne in Hk by done.
      destruct (decide (k = (0, 1))) as [->|H1];
        [by rewrite lookup_insert_eq|].
      rewrite lookup_insert_ne by done.
      rewrite lookup_insert_ne in Hk by done.
      destruct (decide (k = (0, 0))) as [->|H0];
        [by rewrite lookup_insert_eq|].
      rewrite lookup_insert_ne in Hk by done.
      by rewrite lookup_empty in Hk.
  - intros Hd. destruct (Hdummy Hd) as (_ & _ & Hlen & _).
    rewrite Hlen. split; reflexivity.
Qed.

Lemma relation_counts_witness :
  ∃ L,
    edge_types small_data !! (0, 0) = Some 2 ∧
    edge_types small_data !! (0, 1) = Some 1 ∧
    edge_types small_data !! (1, 0) = Some 1 ∧
    edge_types small_data !! (1, 1) = Some (2 * L) ∧
    num_edge_types small_data = 4 + 2 * L.
Proof.
  destruct (relation_counts false small_env small_data)
    as (L & H0 & H1 & H2 & H3 & _ & Hn & _).
  - vm_compute. reflexivity.
  - exists L. by repeat split.
Defined.

(** ** The evaluator on scores that do not discriminate *)

Lemma Qnat_pos_nonzero (n : nat) : 0 < n → ¬ (Qnat n == 0)%Q.
Proof. unfold Qnat, Qeq; simpl. lia. Qed.

(** Samples of one common score form a single run: the curve has one
    point, which counts all of them. *)
Lemma clf_curve_constant (l : list (Q * bool)) (tps fps : nat) :
  l ≠ [] →
  (∀ a b, a ∈ l → b ∈ l → Qeq_bool a.1 b.1 = true) →
  clf_curve tps fps l
  = [(fps + length (filter (λ p, p.2 = false) l),
      tps + length (filter (λ p, p.2 = true) l))].
Proof.
  revert tps fps.
  induction l as [|[s y] l IH]; intros tps fps Hne Hall; [done|].
  assert (Hcount :
    fps + length (filter (λ p : Q * bool, p.2 = false) ((s, y) :: l))
    = (if y then fps else S fps)
      + length (filter (λ p : Q * bool, p.2 = false) l) ∧
    tps + length (filter (λ p : Q * bool, p.2 = true) ((s, y) :: l))
    = (if y then S tps else tps)
      + length (filter (λ p : Q * bool, p.2 = true) l)).
  { destruct y.
    - rewrite (filter_cons_False (λ p : Q * bool, p.2 = false) (s, true))
        by done.
      rewrite (filter_cons_True (λ p : Q * bool, p.2 = true) (s, true))
        by done.
      cbn [length]. lia.
    - rewrite (filter_cons_True (λ p : Q * bool, p.2 = false) (s, false))
        by done.
      rewrite (filter_cons_False (λ p : Q * bool, p.2 = true) (s, false))
        by done.
      cbn [length]. lia. }
  destruct Hcount as [-> ->].
  cbn [clf_curve]. destruct l as [|[s' y'] l'].
  - rewrite !filter_nil. cbn [length]. by rewrite !Nat.add_0_r.
  - assert (Hs : Qeq_bool s s' = true)
      by (apply (Hall (s, y) (s', y')); rewrite !elem_of_cons; auto).
    rewrite Hs. apply IH; [done|].
    intros a b Ha Hb. apply Hall; by right.
Qed.

(** With one common score the ROC curve is the diagonal and the
    precision is the share of positives. *)
Lemma constant_scores_metrics (qp qn : list Q) (c : Q) :
  qp ≠ [] → qn ≠ [] →
  (∀ q, q ∈ qp ++ qn → (q == c)%Q) →
  let y_true := replicate (length qp) true ++ replicate (length qn) false in
  (∃ roc, roc_auc_score y_true (qp ++ qn) = Ok roc ∧ (roc == 1 # 2)%Q) ∧
  (average_precision_score y_true (qp ++ qn)
   == Qnat (length qp) / Qnat (length qp + length qn))%Q.
Proof.
  intros Hp Hn Hc y_true.
  assert (Hlp : 0 < length qp) by (destruct qp; [done|simpl; lia]).
  assert (Hln : 0 < length qn) by (destruct qn; [done|simpl; lia]).
  set (l := ((λ q, (q, true)) <$> qp) ++ ((λ q, (q, false)) <$> qn)).
  assert (Hperm : by_decreasing_score l ≡ₚ l).
  { unfold by_decreasing_score. rewrite reverse_Permutation.
    apply stable_sort_perm. }
  assert (Hin : ∀ a, a ∈ by_decreasing_score l → (a.1 == c)%Q).
  { intros a. rewrite Hperm. unfold l. rewrite elem_of_app.
    intros [H|H]; apply list_elem_of_fmap in H as (q & -> & Hq);
      apply Hc; rewrite elem_of_app; auto. }
  assert (Hcurve : clf_curve 0 0 (by_decreasing_score l)
                   = [(length qn, length qp)]).
  { rewrite clf_curve_constant.
    - rewrite Hperm. unfold l. rewrite !filter_app.
      rewrite (filter_none (λ p : Q * bool, p.2 = false))
        by (apply Forall_fmap, Forall_forall; done).
      rewrite (filter_all (λ p : Q * bool, p.2 = false))
        by (apply Forall_fmap, Forall_forall; done).
      rewrite (filter_all (λ p : Q * bool, p.2 = true))
        by (apply Forall_fmap, Forall_forall; done).
      rewrite (filter_none (λ p : Q * bool, p.2 = true))
        by (apply Forall_fmap, Forall_forall; done).
      rewrite app_nil_r, app_nil_l, !length_fmap. reflexivity.
    - intros E. apply (f_equal length) in E.
      rewrite Hperm in E. unfold l in E.
      rewrite length_app, !length_fmap in E. simpl in E. lia.
    - intros a b Ha Hb. apply Qeq_bool_iff.
      rewrite (Hin a Ha), (Hin b Hb). reflexivity. }
  unfold roc_auc_score, average_precision_score, y_true.
  rewrite count_label_true, count_label_false, zip_labels.
  fold l. rewrite Hcurve.
  rewrite (proj2 (Nat.ltb_lt _ _) Hlp), (proj2 (Nat.ltb_lt _ _) Hln).
  cbn [andb]. split.
  - eexists. split; [reflexivity|].
    cbn [map trapz_from rates fst snd]. field.
    split; by apply Qnat_pos_nonzero.
  - cbn [ap_from]. field.
    split; apply Qnat_pos_nonzero; lia.
Qed.

Section EvaluatorEdgeCases.
  Context {F : Type} (sigmoid : F → score).
  Context (apk : list nat → list nat → nat → Q).
  Context (sess_run : gmap string value → result (nat → nat → option F)).
  Context (edge_type2idx : gmap (nat * nat * nat) nat).
  Context (adj_mats : gmap (nat * nat) (list matrix)).

(** X7. Lines 232-238. When, after [nan_to_num], all pooled scores are
    equal (in particular when the model returns NaN for every listed
    pair), a call on consistent edge lists with at least one positive and
    one negative returns ROC-AUC 1/2 and an average precision equal to
    the share of positives among the candidates. *)
Theorem constant_scores_chance_level (feed_dict : gmap string value)
    (edges_pos edges_neg : edge_lists) (edge_type : nat * nat * nat)
    (idx : nat) (rec : nat → nat → option F)
    (pos neg : list (nat * nat)) (ps ns : list score) (c : Q) :
  edge_type2idx !! edge_type = Some idx →
  sess_run (evaluation_feed feed_dict edge_type idx) = Ok rec →
  edges_get edges_pos edge_type = Ok pos →
  edges_get edges_neg edge_type = Ok neg →
  Forall2 (scored sigmoid rec) pos ps →
  Forall2 (scored sigmoid rec) neg ns →
  Forall (λ uv, adj_get adj_mats edge_type uv.1 uv.2 = Ok 1%Z) pos →
  Forall (λ uv, adj_get adj_mats edge_type uv.1 uv.2 = Ok 0%Z) neg →
  pos ≠ [] → neg ≠ [] →
  (∀ s, s ∈ ps ++ ns → (nan_to_num s == c)%Q) →
  ∃ roc aupr apk_sc,
    (get_accuracy_scores sigmoid apk sess_run edge_type2idx adj_mats
       feed_dict edges_pos edges_neg edge_type).2 = Ok (roc, aupr, apk_sc) ∧
    (roc == 1 # 2)%Q ∧
    (aupr == Qnat (length pos) / Qnat (length pos + length neg))%Q.
Proof.
  intros Hidx Hrec Hpos Hneg Hps Hns Hp Hn Hpne Hnne Hc.
  pose proof (Forall2_length _ _ _ Hps) as Hlp.
  pose proof (Forall2_length _ _ _ Hns) as Hln.
  assert (Hps_ne : ps ≠ []) by (intros ->; destruct pos; done).
  assert (Hns_ne : ns ≠ []) by (intros ->; destruct neg; done).
  destruct (constant_scores_metrics (map nan_to_num ps) (map nan_to_num ns) c)
    as [(roc & Hroc & Hhalf) Hap].
  - by destruct ps.
  - by destruct ns.
  - intros q Hq. rewrite <- map_app in Hq.
    change (map nan_to_num) with (fmap (M := list) nan_to_num) in Hq.
    apply list_elem_of_fmap in Hq as (s & -> & Hs). by apply Hc.
  - rewrite !length_map in Hroc, Hap.
    rewrite <- labels_all_tally_of, <- preds_all_tally_of in Hroc, Hap.
    eexists roc, _, _. split; [|split; [exact Hhalf|]].
    + eapply get_accuracy_scores_returns; eauto.
      by destruct ps.
    + by rewrite Hlp, Hln.
Qed.

End EvaluatorEdgeCases.

Lemma constant_scores_chance_level_witness :
  ∃ roc aupr apk_sc,
    (get_accuracy_scores (λ s : score, s) example_apk
       (λ _, Ok nan_rec) example_idx example_adj
       ∅ example_pos example_neg (0, 0, 0)).2 = Ok (roc, aupr, apk_sc) ∧
    (roc == 1 # 2)%Q ∧ (aupr == Qnat 2 / Qnat (2 + 2))%Q.
Proof.
  apply (constant_scores_chance_level (λ s : score, s) example_apk
           (λ _, Ok nan_rec) example_idx example_adj ∅
           example_pos example_neg (0, 0, 0) 0 nan_rec
           [(0, 1); (1, 2)] [(0, 2); (2, 0)] [NaN; NaN] [NaN; NaN] 0%Q).
  - reflexivity.
  - reflexivity.
  - reflexivity.
  - reflexivity.
  - repeat constructor; by eexists.
  - repeat constructor; by eexists.
  - apply example_consistent.
  - apply example_consistent.
  - discriminate.
  - discriminate.
  - intros s Hs.
    repeat (apply elem_of_cons in Hs as [->|Hs]; [reflexivity|]).
    by apply elem_of_nil in Hs.
Defined.

(** ** The evaluator: which exception a failing call raises *)

Section EvaluatorExceptions.
  Context {F : Type} (sigmoid : F → score).
  Context (apk : list nat → list nat → nat → Q).
  Context (sess_run : gmap string value → result (nat → nat → option F)).
  Context (edge_type2idx : gmap (nat * nat * nat) nat).
  Context (adj_mats : gmap (nat * nat) (list matrix)).

Lemma get_accuracy_scores_run feed_dict edges_pos edges_neg et idx rec :
  edge_type2idx !! et = Some idx →
  sess_run (evaluation_feed feed_dict et idx) = Ok rec →
  get_accuracy_scores sigmoid apk sess_run edge_type2idx adj_mats
    feed_dict edges_pos edges_neg et
  = (evaluation_feed feed_dict et idx,
     score_edges sigmoid apk adj_mats rec edges_pos edges_neg et).
Proof.
  intros Hidx Hrec. unfold get_accuracy_scores, dict_get.
  rewrite Hidx. cbn. by rewrite Hrec.
Qed.

Lemma foldM_negative_assertion rec et neg t :
  Forall (λ uv, is_Some (rec uv.1 uv.2) ∧
                ∃ a, adj_get adj_mats et uv.1 uv.2 = Ok a) neg →
  Exists (λ uv, adj_get adj_mats et uv.1 uv.2 ≠ Ok 0%Z) neg →
  foldM (score_negative sigmoid adj_mats rec et) neg t
  = Raise (AssertionError "Problem 0").
Proof.
  intros Hall. revert t.
  induction Hall as [|uv neg [[x Hx] [a Ha]] Hall IH]; intros t Hex.
  - by apply Exists_nil in Hex.
  - cbn [foldM]. rewrite (score_negative_checked _ _ _ _ _ _ _ _ Hx Ha).
    destruct (decide (a = 0%Z)) as [->|Hne]; [|reflexivity].
    apply Exists_cons in Hex as [Hex|Hex]; [by rewrite Ha in Hex|].
    by apply IH.
Qed.

Lemma scored_total (rec : nat → nat → option F) (l : list (nat * nat)) :
  Forall (λ uv, is_Some (rec uv.1 uv.2)) l →
  ∃ ss, Forall2 (scored sigmoid rec) l ss.
Proof.
  induction 1 as [|uv l [x Hx] _ [ss IH]]; [by exists []|].
  exists (sigmoid x :: ss). constructor; [by exists x|done].
Qed.

(** A pair without a score stops the loop at line 215, before the
    assertion of line 217 is reached. *)
Lemma foldM_positive_index rec et pre uv post t :
  Forall (λ uv, is_Some (rec uv.1 uv.2) ∧
                adj_get adj_mats et uv.1 uv.2 = Ok 1%Z) pre →
  rec uv.1 uv.2 = None →
  foldM (score_positive sigmoid adj_mats rec et) (pre ++ uv :: post) t
  = Raise IndexError.
Proof.
  intros Hpre Hnone. revert t.
  induction Hpre as [|p pre [[x Hx] Ha] _ IH]; intros t.
  - cbn [app foldM]. unfold score_positive, rec_get. by rewrite Hnone.
  - cbn [app foldM]. rewrite (score_positive_checked _ _ _ _ _ _ _ _ Hx Ha).
    rewrite decide_True by done. apply IH.
Qed.

(** X8. Lines 214-230. Which exception a failing call raises, the model
    having returned its scores: if every listed positive lies inside the
    score and adjacency matrices and one of them is not an edge, the
    failed [assert ..., 'Problem 1'], whatever the negatives are; if the
    positives are all scored edges and the negatives lie inside the
    matrices but one of them is an edge, the failed
    [assert ..., 'Problem 0']; and a positive outside the score matrix,
    preceded by scored edges only, [IndexError], since the score is read
    before the adjacency matrix is checked. *)
Theorem first_failure_decides (feed_dict : gmap string value)
    (edges_pos edges_neg : edge_lists) (edge_type : nat * nat * nat)
    (idx : nat) (rec : nat → nat → option F) (pos : list (nat * nat)) :
  edge_type2idx !! edge_type = Some idx →
  sess_run (evaluation_feed feed_dict edge_type idx) = Ok rec →
  edges_get edges_pos edge_type = Ok pos →
  let out := (get_accuracy_scores sigmoid apk sess_run edge_type2idx
                adj_mats feed_dict edges_pos edges_neg edge_type).2 in
  let inside (uv : nat * nat) :=
    is_Some (rec uv.1 uv.2) ∧
    ∃ a, adj_get adj_mats edge_type uv.1 uv.2 = Ok a in
  let scored_edge (uv : nat * nat) :=
    is_Some (rec uv.1 uv.2) ∧
    adj_get adj_mats edge_type uv.1 uv.2 = Ok 1%Z in
  (Forall inside pos →
   Exists (λ uv, adj_get adj_mats edge_type uv.1 uv.2 ≠ Ok 1%Z) pos →
   out = Raise (AssertionError "Problem 1")) ∧
  (Forall scored_edge pos →
   ∀ neg, edges_get edges_neg edge_type = Ok neg →
          Forall inside neg →
          Exists (λ uv, adj_get adj_mats edge_type uv.1 uv.2 ≠ Ok 0%Z) neg →
          out = Raise (AssertionError "Problem 0")) ∧
  (∀ pre uv post, pos = pre ++ uv :: post →
                  Forall scored_edge pre → rec uv.1 uv.2 = None →
                  out = Raise IndexError).
Proof.
  intros Hidx Hrec Hpos out inside scored_edge. unfold out.
  rewrite (get_accuracy_scores_run _ _ _ _ _ _ Hidx Hrec). cbn [snd].
  unfold score_edges. rewrite Hpos. cbn [mbind result_bind].
  split; [|split].
  - intros Hin Hex.
    by rewrite (foldM_positive_assertion sigmoid adj_mats rec edge_type
                  pos _ Hin Hex).
  - intros Hedges neg Hneg Hin Hex.
    destruct (scored_total rec pos) as [ps Hps].
    { eapply Forall_impl; [exact Hedges|]. by intros uv [? _]. }
    rewrite (proj2 (foldM_positive_iff sigmoid adj_mats rec edge_type pos
                      _ _)
               (ex_intro _ ps (conj Hps (conj
                  (Forall_impl _ _ _ Hedges (λ uv H, proj2 H)) eq_refl)))).
    cbn [mbind result_bind]. rewrite Hneg. cbn [mbind result_bind].
    by rewrite (foldM_negative_assertion rec edge_type neg _ Hin Hex).
  - intros pre uv post -> Hpre Hnone.
    by rewrite (foldM_positive_index rec edge_type pre uv post _ Hpre Hnone).
Qed.

Lemma foldM_ext {A S} (f g : S → A → result S) (l : list A) (s : S) :
  (∀ t x, x ∈ l → f t x = g t x) → foldM f l s = foldM g l s.
Proof.
  revert s. induction l as [|x l IH]; intros s Hfg; [done|].
  cbn [foldM]. rewrite (Hfg s x) by left.
  destruct (g s x) as [s'|e]; [|done].
  cbn. apply IH. intros t y Hy. apply Hfg. by right.
Qed.

(** X9. Lines 200-241. The call reads the score matrix at the listed
    pairs only: two models whose score matrices agree on the pairs of
    both edge lists give the same result, metrics or exception, and
    leave the same feed dictionary. *)
Theorem evaluation_reads_listed_pairs
    (sess_run' : gmap string value → result (nat → nat → option F))
    (feed_dict : gmap string value)
    (edges_pos edges_neg : edge_lists) (edge_type : nat * nat * nat)
    (idx : nat) (rec rec' : nat → nat → option F) :
  edge_type2idx !! edge_type = Some idx →
  sess_run (evaluation_feed feed_dict edge_type idx) = Ok rec →
  sess_run' (evaluation_feed feed_dict edge_type idx) = Ok rec' →
  (∀ pos, edges_get edges_pos edge_type = Ok pos →
          ∀ uv, uv ∈ pos → rec uv.1 uv.2 = rec' uv.1 uv.2) →
  (∀ neg, edges_get edges_neg edge_type = Ok neg →
          ∀ uv, uv ∈ neg → rec uv.1 uv.2 = rec' uv.1 uv.2) →
  get_accuracy_scores sigmoid apk sess_run edge_type2idx adj_mats
    feed_dict edges_pos edges_neg edge_type
  = get_accuracy_scores sigmoid apk sess_run' edge_type2idx adj_mats
      feed_dict edges_pos edges_neg edge_type.
Proof.
  intros Hidx Hrec Hrec' Hp Hn.
  unfold get_accuracy_scores, dict_get. rewrite Hidx. cbn.
  rewrite Hrec, Hrec'. cbn. f_equal.
  unfold score_edges.
  destruct (edges_get edges_pos edge_type) as [pos|e]; [|done].
  cbn [mbind result_bind].
  rewrite (foldM_ext (score_positive sigmoid adj_mats rec edge_type)
             (score_positive sigmoid adj_mats rec' edge_type) pos).
  2:{ intros t uv Huv. unfold score_positive, rec_get.
      by rewrite (Hp pos eq_refl uv Huv). }
  destruct (foldM _ pos _) as [t1|e]; [|done].
  cbn [mbind result_bind].
  destruct (edges_get edges_neg edge_type) as [neg|e]; [|done].
  cbn [mbind result_bind].
  rewrite (foldM_ext (score_negative sigmoid adj_mats rec edge_type)
             (score_negative sigmoid adj_mats rec' edge_type) neg).
  2:{ intros t uv Huv. unfold score_negative, rec_get.
      by rewrite (Hn neg eq_refl uv Huv). }
  reflexivity.
Qed.

End EvaluatorExceptions.

Lemma first_failure_decides_witness :
  (get_accuracy_scores (λ s : score, s) example_apk
     (λ _, Ok example_rec) example_idx example_adj
     ∅ corrupt_pos corrupt_neg (0, 0, 0)).2
  = Raise (AssertionError "Problem 1") ∧
  (get_accuracy_scores (λ s : score, s) example_apk
     (λ _, Ok example_rec) example_idx example_adj
     ∅ example_pos corrupt_neg (0, 0, 0)).2
  = Raise (AssertionError "Problem 0") ∧
  (get_accuracy_scores (λ s : score, s) example_apk
     (λ _, Ok example_rec) example_idx example_adj
     ∅ outside_pos example_neg (0, 0, 0)).2
  = Raise IndexError.
Proof.
  split; [|split].
  - apply (proj1 (first_failure_decides (λ s : score, s) example_apk
             (λ _, Ok example_rec) example_idx example_adj ∅
             corrupt_pos corrupt_neg (0, 0, 0) 0 example_rec
             [(0, 1); (0, 2)] eq_refl eq_refl eq_refl)).
    + repeat constructor; by eexists.
    + right. left. vm_compute. discriminate.
  - apply (proj1 (proj2 (first_failure_decides (λ s : score, s) example_apk
             (λ _, Ok example_rec) example_idx example_adj ∅
             example_pos corrupt_neg (0, 0, 0) 0 example_rec
             [(0, 1); (1, 2)] eq_refl eq_refl eq_refl))
             ltac:(repeat constructor; by eexists)
             [(0, 2); (0, 1)] eq_refl).
    + repeat constructor; by eexists.
    + right. left. vm_compute. discriminate.
  - apply (proj2 (proj2 (first_failure_decides (λ s : score, s) example_apk
             (λ _, Ok example_rec) example_idx example_adj ∅
             outside_pos example_neg (0, 0, 0) 0 example_rec
             [(0, 1); (0, 7)] eq_refl eq_refl eq_refl))
             [(0, 1)] (0, 7) [] eq_refl).
    + repeat constructor; by eexists.
    + reflexivity.
Defined.

Lemma evaluation_reads_listed_pairs_witness :
  get_accuracy_scores (λ s : score, s) example_apk
    (λ _, Ok example_rec) example_idx example_adj
    ∅ example_pos example_neg (0, 0, 0)
  = get_accuracy_scores (λ s : score, s) example_apk
      (λ _, Ok example_rec_other) example_idx example_adj
      ∅ example_pos example_neg (0, 0, 0).
Proof.
  apply (evaluation_reads_listed_pairs (λ s : score, s) example_apk
           (λ _, Ok example_rec) example_idx example_adj
           (λ _, Ok example_rec_other) ∅ example_pos example_neg
           (0, 0, 0) 0 example_rec example_rec_other
           eq_refl eq_refl eq_refl).
  - intros pos [= <-] uv Huv.
    repeat (apply elem_of_cons in Huv as [->|Huv]; [reflexivity|]).
    by apply elem_of_nil in Huv.
  - intros neg [= <-] uv Huv.
    repeat (apply elem_of_cons in Huv as [->|Huv]; [reflexivity|]).
    by apply elem_of_nil in Huv.
Defined.

(** ** The training loop: how often each call happens *)





Section TrainingLoopCounts.
  Context {M T F : Type} `{MinibatchIterator M} `{Session T F}.
  Context (sigmoid : F → score).
  Context (apk : list nat → list nat → nat → Q).
  Context (adj_mats : gmap (nat * nat) (list matrix)).
  Context (flag_dropout : Q) (flag_epochs : nat) (n_edge_types : nat).






Lemma test_relations_prefix ets rest (w : world M T) tr fd' :
  test_calls sigmoid apk adj_mats (minibatch w) (sess w) ets
    (feed_dict w) tr fd' →
  test_relations sigmoid apk adj_mats (ets ++ rest) w
  = test_relations sigmoid apk adj_mats rest
      (World (minibatch w) (sess w) fd' (trace w ++ tr)).
Proof.
  intros Hcalls. remember (minibatch w) as mb eqn:Hmb.
  remember (sess w) as s eqn:Hs. remember (feed_dict w) as fd eqn:Hfd.
  revert w Hmb Hs Hfd.
  induction Hcalls as [fd|et ets fd edge_type fd1 m tr fd' Het Hgas _ IH];
    intros w -> -> ->.
  - cbn [app]. rewrite app_nil_r. by destruct w.
  - cbn [app test_relations]. unfold dict_get. rewrite Het.
    unfold evaluate. rewrite Hgas. cbn [fst snd].
    rewrite (IH (World (minibatch w) (sess w) fd1
                   (trace w ++ [EvTest et m])) eq_refl eq_refl eq_refl).
    cbn [minibatch sess trace]. by rewrite <- app_assoc.
Qed.

(** X12. Lines 390-397. The test loop stops at the first relation that
    fails: when training has completed and the relations [0 .. k-1]
    have been evaluated, a relation [k] below [num_edge_types] that
    [idx2edge_type] does not know ends the run with [KeyError], and one
    whose evaluation raises ends it with that exception; the metrics
    printed are those of the relations [0 .. k-1], and no later relation
    is evaluated. *)
Theorem failing_test_stops_run (fuel : nat) (w w1 : world M T) (k : nat)
    (tr : list event) (fd_k fd' : gmap string value) (e : exn) :
  train_epochs sigmoid apk adj_mats flag_dropout fuel flag_epochs w
  = Done w1 →
  k < n_edge_types →
  test_calls sigmoid apk adj_mats (minibatch w1) (sess w1) (seq 0 k)
    (feed_dict w1) tr fd_k →
  (idx2edge_type (minibatch w1) !! k = None ∧ e = KeyError ∧ fd' = fd_k) ∨
  (∃ edge_type,
     idx2edge_type (minibatch w1) !! k = Some edge_type ∧
     get_accuracy_scores sigmoid apk (predictions (sess w1))
       (edge_type2idx (minibatch w1)) adj_mats fd_k
       (test_edges (minibatch w1)) (test_edges_false (minibatch w1))
       edge_type = (fd', Raise e)) →
  train_and_test sigmoid apk adj_mats flag_dropout flag_epochs n_edge_types
    fuel w
  = Raised e (World (minibatch w1) (sess w1) fd' (trace w1 ++ tr)).
Proof.
  intros Htrain Hk Hcalls Hfail. unfold train_and_test. rewrite Htrain.
  replace (seq 0 n_edge_types)
    with (seq 0 k ++ k :: seq (S k) (n_edge_types - S k)).
  2:{ replace n_edge_types with (k + S (n_edge_types - S k)) at 2 by lia.
      by rewrite seq_app. }
  rewrite (test_relations_prefix _ _ _ _ _ Hcalls).
  cbn [test_relations minibatch sess feed_dict]. unfold dict_get.
  destruct Hfail as [(Hnone & -> & ->)|(edge_type & Het & Hgas)].
  - by rewrite Hnone.
  - rewrite Het. unfold evaluate. cbn [minibatch sess feed_dict trace].
    rewrite Hgas. cbn [fst snd]. by rewrite app_nil_r.
Qed.

End TrainingLoopCounts.



(** With 151 batches an epoch validates twice, at iterations 0 and 150,
    and the session has made 151 optimization steps. *)
Example toy_epoch_validations :
  match @train_batches nat nat score toy_iterator toy_session (λ s, s)
          example_apk example_adj (1 # 10) 200 0 (World 0 0 ∅ []) with
  | Done w =>
      sess w = 151 ∧
      count_events is_draw (trace w) = 151 ∧
      validated_at 0 (trace w) = [0; 150]
  | _ => False
  end.
Proof. vm_compute. repeat split; reflexivity. Qed.

(** A relation that the iterator cannot map back to an index stops the
    run at the first validation, after one optimization step; nothing is
    printed and no test evaluation follows. *)
Example lost_relation_stops_training :
  match @train_and_test nat nat score lost_iterator toy_session (λ s, s)
          example_apk example_adj (1 # 10) 2 1 200 (World 0 0 ∅ []) with
  | Raised e w =>
      e = KeyError ∧ sess w = 1 ∧
      trace w = [EvShuffle; EvDraw; EvOptimize]
  | _ => False
  end.
Proof. vm_compute. repeat split; reflexivity. Qed.

Lemma failing_test_stops_run_witness :
  ∃ m fd,
    @train_and_test nat nat score toy_iterator toy_session (λ s, s)
      example_apk example_adj (1 # 10) 0 2 200 (World 0 0 ∅ [])
    = Raised KeyError (World 0 0 fd ([] ++ [EvTest 0 m])).
Proof.
  eexists _, _.
  eapply (@failing_test_stops_run nat nat score toy_iterator toy_session
            (λ s : score, s) example_apk example_adj (1 # 10) 0 2 200
            (World 0 0 ∅ []) (World 0 0 ∅ []) 1 _ _ _ KeyError).
  - reflexivity.
  - lia.
  - eapply test_calls_cons; [reflexivity|vm_compute; reflexivity|].
    constructor.
  - left. repeat split; reflexivity.
Defined.

(** After two epochs of training, with two relations announced but only
    relation 0 known to the iterator, the metrics of relation 0 are
    printed and the run ends with [KeyError]. *)
Example unknown_relation_stops_testing :
  match @train_and_test nat nat score toy_iterator toy_session (λ s, s)
          example_apk example_adj (1 # 10) 2 2 200 (World 0 0 ∅ []) with
  | Raised e w =>
      e = KeyError ∧ sess w = 302 ∧ count_events is_test (trace w) = 1
  | _ => False
  end.
Proof. vm_compute. repeat split; reflexivity. Qed.

(** ** The placeholders *)

Lemma update_all_lookup {V} (d : gmap string V) (keys : list string)
    (value : V) (s : string) :
  update_all d keys value !! s
  = if decide (s ∈ keys) then Some value else d !! s.
Proof.
  unfold update_all. revert d.
  induction keys as [|key keys IH]; intros d; cbn [foldl].
  - rewrite decide_False; [done|]. apply not_elem_of_nil.
  - rewrite IH. destruct (decide (s ∈ keys)) as [Hin|Hnin].
    + rewrite decide_True; [done|]. by right.
    + destruct (decide (s = key)) as [->|Hne].
      * rewrite decide_True by left. apply lookup_insert_eq.
      * rewrite decide_False.
        -- by apply lookup_insert_ne.
        -- intros [->|H]%elem_of_cons; done.
Qed.

Lemma adj_mats_keys_elem (edge_types : gmap (nat * nat) nat) (s : string) :
  s ∈ adj_mats_keys edge_types ↔
  ∃ i j n k, edge_types !! (i, j) = Some n ∧ k < n ∧ s = adj_mats_key i j k.
Proof.
  unfold adj_mats_keys. rewrite list_elem_of_bind. split.
  - intros ([[i j] n] & Hs & Hijn).
    apply elem_of_map_to_list in Hijn.
    apply list_elem_of_fmap in Hs as (k & -> & Hk).
    apply elem_of_seq in Hk. cbn [fst snd] in Hk. exists i, j, n, k.
    split; [done|]. split; [lia|done].
  - intros (i & j & n & k & Hijn & Hk & ->).
    exists ((i, j), n). split.
    + apply list_elem_of_fmap. exists k. split; [done|].
      apply elem_of_seq. cbn [fst snd]. lia.
    + by apply elem_of_map_to_list.
Qed.

Lemma feat_keys_elem (edge_types : gmap (nat * nat) nat) (s : string) :
  s ∈ feat_keys edge_types ↔
  ∃ i j n, edge_types !! (i, j) = Some n ∧ s = feat_key i.
Proof.
  unfold feat_keys. rewrite list_elem_of_fmap. split.
  - intros ([[i j] n] & -> & Hijn).
    apply elem_of_map_to_list in Hijn. by exists i, j, n.
  - intros (i & j & n & Hijn & ->).
    exists ((i, j), n). split; [done|]. by apply elem_of_map_to_list.
Qed.

Lemma fixed_placeholders_keys (s : string) :
  is_Some (fixed_placeholders !! s) ↔
  s ∈ ["batch"; "batch_edge_type_idx"; "batch_row_edge_type";
       "batch_col_edge_type"; "degrees"; "dropout"].
Proof.
  unfold fixed_placeholders.
  rewrite !lookup_insert_is_Some', lookup_empty, !elem_of_cons, elem_of_nil.
  split.
  - intros [<-|[<-|[<-|[<-|[<-|[<-|[x Hx]]]]]]]; [auto 10..|done].
  - intros [->|[->|[->|[->|[->|[->|[]]]]]]]; auto 10.
Qed.

(** The generated keys start with [adj_mats_] or [feat_], the fixed ones
    do not. *)
Lemma fixed_not_generated (edge_types : gmap (nat * nat) nat) (s : string) :
  is_Some (fixed_placeholders !! s) →
  (s ∉ adj_mats_keys edge_types) ∧ (s ∉ feat_keys edge_types).
Proof.
  rewrite fixed_placeholders_keys, adj_mats_keys_elem, feat_keys_elem.
  intros Hs. split.
  - intros (i & j & n & k & _ & _ & ->).
    repeat (apply elem_of_cons in Hs as [Hs|Hs]; [discriminate Hs|]).
    by apply elem_of_nil in Hs.
  - intros (i & j & n & _ & ->).
    repeat (apply elem_of_cons in Hs as [Hs|Hs]; [discriminate Hs|]).
    by apply elem_of_nil in Hs.
Qed.

(** X13. Lines 243-258. Whatever [edge_types] is, the six fixed
    placeholders are present and unchanged by the two updates, [dropout]
    with default 0; every relation [(i, j, k)] with [k] below
    [edge_types[i, j]] has its sparse placeholder [adj_mats_i,j,k]; a
    node type has its sparse placeholder [feat_i] when it is the first
    component of some pair of [edge_types]; and there is no other key. *)
Theorem placeholders_of_edge_types (edge_types : gmap (nat * nat) nat) :
  let placeholders := construct_placeholders edge_types in
  (∀ s p, fixed_placeholders !! s = Some p → placeholders !! s = Some p) ∧
  placeholders !! "dropout" = Some (DenseWithDefault 0 []) ∧
  (∀ i j n k, edge_types !! (i, j) = Some n → k < n →
              placeholders !! adj_mats_key i j k = Some (Sparse float32)) ∧
  (∀ i j n, edge_types !! (i, j) = Some n →
            placeholders !! feat_key i = Some (Sparse float32)) ∧
  (∀ s, is_Some (placeholders !! s) ↔
        s ∈ ["batch"; "batch_edge_type_idx"; "batch_row_edge_type";
             "batch_col_edge_type"; "degrees"; "dropout"] ∨
        (∃ i j n k, edge_types !! (i, j) = Some n ∧ k < n ∧
                    s = adj_mats_key i j k) ∨
        (∃ i j n, edge_types !! (i, j) = Some n ∧ s = feat_key i)).
Proof.
  intros placeholders.
  assert (Hlook : ∀ s, placeholders !! s
            = if decide (s ∈ feat_keys edge_types) then Some (Sparse float32)
              else if decide (s ∈ adj_mats_keys edge_types)
                   then Some (Sparse float32)
                   else fixed_placeholders !! s).
  { intros s. unfold placeholders, construct_placeholders.
    by rewrite !update_all_lookup. }
  assert (Hfixed : ∀ s p, fixed_placeholders !! s = Some p →
                          placeholders !! s = Some p).
  { intros s p Hs. rewrite Hlook.
    destruct (fixed_not_generated edge_types s) as [Ha Hf]; [by eexists|].
    by rewrite !decide_False. }
  split; [exact Hfixed|]. split; [by apply Hfixed|]. split; [|split].
  - intros i j n k Hijn Hk. rewrite Hlook.
    destruct (decide (_ ∈ feat_keys _)); [done|].
    rewrite decide_True; [done|].
    apply adj_mats_keys_elem. by exists i, j, n, k.
  - intros i j n Hijn. rewrite Hlook.
    rewrite decide_True; [done|].
    apply feat_keys_elem. by exists i, j, n.
  - intros s. rewrite Hlook, <- fixed_placeholders_keys,
      <- adj_mats_keys_elem, <- feat_keys_elem.
    destruct (decide (s ∈ feat_keys edge_types)) as [Hf|Hf];
      [split; [by auto|by eexists]|].
    destruct (decide (s ∈ adj_mats_keys edge_types)) as [Ha|Ha];
      [split; [by auto|by eexists]|].
    split; [by auto|]. by intros [?|[?|?]].
Qed.

(** A node type that occurs only as the second component of a pair gets
    no feature placeholder. *)
Example target_only_type_has_no_feat :
  let placeholders := construct_placeholders {[ (0, 1) := 2 ]} in
  placeholders !! "feat_0" = Some (Sparse float32) ∧
  placeholders !! "feat_1" = None ∧
  placeholders !! "adj_mats_0,1,1" = Some (Sparse float32) ∧
  placeholders !! "adj_mats_0,1,2" = None ∧
  size placeholders = 9.
Proof. vm_compute. repeat split; reflexivity. Qed.

(** ** Degree vectors *)

Lemma sum_entries_count (m : matrix) (v : nat) (l : list nat) :
  (∀ u x, entries m !! (u, v) = Some x → x = 1%Z) →
  sum_Z (map (λ u, entry m u v) l)
  = Z.of_nat (length (filter (λ u, entry m u v = 1%Z) l)).
Proof.
  intros Hval. induction l as [|u l IH]; [done|].
  cbn [map sum_Z foldr]. fold (sum_Z (map (λ u, entry m u v) l)).
  rewrite IH. unfold entry at 1.
  destruct (entries m !! (u, v)) as [x|] eqn:E.
  - rewrite (Hval u x E). change (default 0%Z (Some 1%Z)) with 1%Z.
    rewrite filter_cons_True by (unfold entry; by rewrite E, (Hval u x E)).
    cbn [length]. lia.
  - change (default 0%Z (@None Z)) with 0%Z.
    rewrite filter_cons_False by (unfold entry; by rewrite E).
    lia.
Qed.

Lemma sum_axis0_symmetric01 (n : nat) (m : matrix) :
  symmetric01 n m → sum_axis0 m = neighbour_counts n m.
Proof.
  intros (Hshape & _ & Hval). unfold sum_axis0, neighbour_counts.
  rewrite Hshape. cbn [fst snd]. apply map_ext. intros v.
  apply sum_entries_count. intros u x Hx. by destruct (Hval u v x Hx).
Qed.

Lemma neighbours_symmetric (n : nat) (m : matrix) (v : nat) :
  symmetric01 n m →
  neighbours m n v = filter (λ u, entry m v u = 1%Z) (seq 0 n).
Proof.
  intros (_ & Hsym & _). unfold neighbours.
  apply list_filter_iff. intros u. unfold entry. by rewrite Hsym.
Qed.

(** X14. Lines 70-75, 143-146 and 158-161. In both branches the degree
    vectors of the drugs have one entry per drug, and the entry of drug
    [v] in the vector of a side effect is the number of drugs [u] with
    [m[u, v] == 1] in its matrix [m], which is also the number of drugs
    [u] with [m[v, u] == 1]. *)
Theorem drug_degrees_count_neighbours (use_dummy : bool) (env : environment)
    (d : decagon_data) :
  load_decagon_data use_dummy env = Ok d →
  ∃ n L,
    num_feat d !! 1 = Some n ∧
    adj_mats_orig d !! (1, 1) = Some (L ++ L) ∧
    degrees d !! 1
    = Some (map (neighbour_counts n) L ++ map (neighbour_counts n) L) ∧
    Forall (λ m, length (neighbour_counts n m) = n ∧
                 ∀ v, neighbours m n v
                      = filter (λ u, entry m v u = 1%Z) (seq 0 n)) L.
Proof.
  intros H. apply load_decagon_data_symmetric in H
    as (raw & -> & (_ & _ & Hdeg) & Hsym & _).
  exists (n_drugs raw), (drug_drug_adj_list raw).
  destruct (assemble_lookups raw) as (_ & Hn & _ & _ & Hadj & _).
  split; [exact Hn|].
  split; [by rewrite Hadj, (symmetric_transposes _ _ Hsym)|]. split.
  - cbn [assemble degrees]. rewrite lookup_insert_eq, Hdeg.
    assert (Hmap : map sum_axis0 (drug_drug_adj_list raw)
                   = map (neighbour_counts (n_drugs raw))
                       (drug_drug_adj_list raw)).
    { clear Hadj Hdeg. induction Hsym as [|m L Hm _ IH]; [done|].
      cbn [map]. by rewrite IH, (sum_axis0_symmetric01 _ _ Hm). }
    by rewrite Hmap.
  - eapply Forall_impl; [exact Hsym|]. intros m Hm. split.
    + unfold neighbour_counts. by rewrite length_map, length_seq.
    + intros v. by apply neighbours_symmetric.
Qed.

Lemma drug_degrees_count_neighbours_witness :
  ∃ n L,
    num_feat small_data !! 1 = Some n ∧
    adj_mats_orig small_data !! (1, 1) = Some (L ++ L) ∧
    degrees small_data !! 1
    = Some (map (neighbour_counts n) L ++ map (neighbour_counts n) L) ∧
    Forall (λ m, length (neighbour_counts n m) = n ∧
                 ∀ v, neighbours m n v
                      = filter (λ u, entry m v u = 1%Z) (seq 0 n)) L.
Proof.
  apply (drug_degrees_count_neighbours false small_env small_data).
  vm_compute. reflexivity.
Defined.

(** ** The draws of the synthetic generator *)

Lemma fill_pairs_ext (ps : list (nat * nat)) (py py' : rng Z)
    (mat : matrix) :
  pos py' = pos py →
  (∀ i, pos py ≤ i → i < pos py + length ps → stream py' i = stream py i) →
  (fill_pairs ps py' mat).1 = (fill_pairs ps py mat).1.
Proof.
  revert py py' mat.
  induction ps as [|[d1 d2] ps IH]; intros py py' mat Hpos Hwin; [done|].
  cbn [fill_pairs draw]. rewrite Hpos.
  rewrite (Hwin (pos py)) by (cbn [length]; lia).
  apply IH; [done|]. cbn [pos stream]. intros i Hi1 Hi2.
  apply Hwin; cbn [length]; lia.
Qed.

Lemma dummy_drug_drug_ext (rel_types drugs : nat) (py py' : rng Z) :
  pos py' = pos py →
  (∀ i, pos py ≤ i →
        i < pos py + rel_types * length (combinations2 (seq 0 drugs)) →
        stream py' i = stream py i) →
  (dummy_drug_drug rel_types drugs py').1
  = (dummy_drug_drug rel_types drugs py).1.
Proof.
  revert py py'. induction rel_types as [|k IH]; intros py py' Hpos Hwin;
    [done|].
  cbn [dummy_drug_drug].
  pose proof (fill_pairs_ext (combinations2 (seq 0 drugs)) py py'
                (zeros drugs drugs) Hpos) as Hmat.
  pose proof (fill_pairs_draws (combinations2 (seq 0 drugs)) py
                (zeros drugs drugs)) as [Hp Hs].
  pose proof (fill_pairs_draws (combinations2 (seq 0 drugs)) py'
                (zeros drugs drugs)) as [Hp' Hs'].
  destruct (fill_pairs _ py _) as [mat py1].
  destruct (fill_pairs _ py' _) as [mat' py1'].
  cbn [fst snd] in *.
  rewrite Hmat by (intros i Hi1 Hi2; apply Hwin; lia).
  specialize (IH py1 py1').
  destruct (dummy_drug_drug k drugs py1) as [rest py2].
  destruct (dummy_drug_drug k drugs py1') as [rest' py2'].
  cbn [fst] in *. f_equal. apply IH; [lia|].
  intros i Hi1 Hi2. rewrite Hs, Hs'. apply Hwin; lia.
Qed.

(** X15. Lines 68-75. The synthetic drug-drug matrices read Python's
    generator once per side effect and unordered pair of drugs, that is
    [rel_types * drugs * (drugs - 1) / 2] times, and they are a function
    of these draws alone: two generators that agree on them give the
    same matrices. *)
Theorem synthetic_draws (rel_types drugs : nat) (py : rng Z) :
  let pairs := length (combinations2 (seq 0 drugs)) in
  let out := dummy_drug_drug rel_types drugs py in
  2 * pairs = drugs * (drugs - 1) ∧
  pos out.2 = pos py + rel_types * pairs ∧
  stream out.2 = stream py ∧
  ∀ py' : rng Z,
    pos py' = pos py →
    (∀ i, pos py ≤ i → i < pos py + rel_types * pairs →
          stream py' i = stream py i) →
    (dummy_drug_drug rel_types drugs py').1 = out.1.
Proof.
  intros pairs out.
  pose proof (combinations2_length drugs 0) as Hc. fold pairs in Hc.
  destruct (dummy_drug_drug_spec rel_types drugs py) as (_ & _ & Hp & Hs).
  fold out in Hp, Hs.
  split; [exact Hc|]. split; [nia|]. split; [exact Hs|].
  intros py' Hpos Hwin. by apply dummy_drug_drug_ext.
Qed.

(** ** The contents of the real-data matrices *)

Section RealContents.

Lemma entry_set_one (m : matrix) (a b u v : nat) :
  entry (set_one m a b) u v = 1%Z ↔ (u, v) = (a, b) ∨ entry m u v = 1%Z.
Proof.
  destruct (decide ((a, b) = (u, v))) as [[= <- <-]|Hne].
  - rewrite entry_set_one_eq. split; auto.
  - rewrite entry_set_one_ne by done. split; [auto|].
    intros [[= -> ->]|H]; done.
Qed.

Lemma setitem_one_Ok (m m' : matrix) (a b : nat) :
  setitem_one m a b = Ok m' → m' = set_one m a b.
Proof.
  unfold setitem_one. destruct (in_bounds m a b); [|done]. by intros [= <-].
Qed.

Lemma real_side_effect_fold (env : environment)
    (drug2idx : gmap string nat) (se : string)
    (l : list (string * list string)) (m0 m : matrix) (u v : nat) :
  foldM
    (λ mat cs,
       if bool_decide (se ∈ cs.2) then
         dd ← assoc_get (drug2drug env) cs.1;
         match drug2idx !! dd.1, drug2idx !! dd.2 with
         | Some d1_idx, Some d2_idx =>
             mat' ← setitem_one mat d1_idx d2_idx;
             setitem_one mat' d2_idx d1_idx
         | _, _ => Ok mat
         end
       else Ok mat) l m0 = Ok m →
  entry m u v = 1%Z ↔
  entry m0 u v = 1%Z ∨ side_effect_pair env drug2idx se l u v.
Proof.
  revert m0. induction l as [|cs l IH]; intros m0; cbn [foldM].
  - intros [= <-]. split; [auto|].
    intros [H|(cs & dd & i & j & Hcs & _)]; [done|].
    by apply elem_of_nil in Hcs.
  - destruct (bool_decide (se ∈ cs.2)) eqn:Hse.
    + apply bool_decide_eq_true in Hse.
      destruct (assoc_get (drug2drug env) cs.1) as [dd|e] eqn:Hdd; [|done].
      cbn [mbind result_bind].
      destruct (drug2idx !! dd.1) as [i|] eqn:Hi;
        [destruct (drug2idx !! dd.2) as [j|] eqn:Hj|].
      * destruct (setitem_one m0 i j) as [m1|e] eqn:E1; [|done].
        cbn [mbind result_bind].
        destruct (setitem_one m1 j i) as [m2|e] eqn:E2; [|done].
        cbn [mbind result_bind].
        apply setitem_one_Ok in E1, E2. subst m1 m2.
        intros Hm. rewrite (IH _ Hm), !entry_set_one. split.
        -- intros [[H|[H|H]]|(cs' & dd' & i' & j' & Hcs' & H)].
           ++ right. exists cs, dd, i, j.
              split; [by left|]. by auto 10.
           ++ right. exists cs, dd, i, j.
              split; [by left|]. by auto 10.
           ++ by left.
           ++ right. exists cs', dd', i', j'. split; [by right|done].
        -- intros [H|(cs' & dd' & i' & j' & Hcs' & Hse' & Hdd' & Hi' & Hj' & H)];
             [by auto|].
           apply elem_of_cons in Hcs' as [->|Hcs'].
           ++ left. rewrite Hdd in Hdd'. injection Hdd' as <-.
              rewrite Hi in Hi'. rewrite Hj in Hj'.
              injection Hi' as <-. injection Hj' as <-.
              destruct H as [H|H]; auto.
           ++ right. by exists cs', dd', i', j'.
      * cbn [mbind result_bind]. intros Hm. rewrite (IH _ Hm). split.
        -- intros [H|(cs' & dd' & i' & j' & Hcs' & H)]; [by left|].
           right. exists cs', dd', i', j'. split; [by right|done].
        -- intros [H|(cs' & dd' & i' & j' & Hcs' & Hse' & Hdd' & Hi' & Hj' & H)];
             [by left|].
           apply elem_of_cons in Hcs' as [->|Hcs'].
           ++ rewrite Hdd in Hdd'. injection Hdd' as <-. congruence.
           ++ right. by exists cs', dd', i', j'.
      * cbn [mbind result_bind]. intros Hm. rewrite (IH _ Hm). split.
        -- intros [H|(cs' & dd' & i' & j' & Hcs' & H)]; [by left|].
           right. exists cs', dd', i', j'. split; [by right|done].
        -- intros [H|(cs' & dd' & i' & j' & Hcs' & Hse' & Hdd' & Hi' & Hj' & H)];
             [by left|].
           apply elem_of_cons in Hcs' as [->|Hcs'].
           ++ rewrite Hdd in Hdd'. injection Hdd' as <-. congruence.
           ++ right. by exists cs', dd', i', j'.
    + apply bool_decide_eq_false in Hse.
      cbn [mbind result_bind]. intros Hm. rewrite (IH _ Hm). split.
      * intros [H|(cs' & dd' & i' & j' & Hcs' & H)]; [by left|].
        right. exists cs', dd', i', j'. split; [by right|done].
      * intros [H|(cs' & dd' & i' & j' & Hcs' & Hse' & H)]; [by left|].
        apply elem_of_cons in Hcs' as [->|Hcs']; [done|].
        right. by exists cs', dd', i', j'.
Qed.

Lemma real_side_effect_contents (env : environment) (drugs : nat)
    (drug2idx : gmap string nat) (se : string) (m : matrix) (u v : nat) :
  real_side_effect env drugs drug2idx se = Ok m →
  entry m u v = 1%Z ↔ side_effect_pair env drug2idx se (drug2se env) u v.
Proof.
  unfold real_side_effect. intros Hm.
  rewrite (real_side_effect_fold _ _ _ _ _ _ u v Hm), entry_zeros.
  split; [by intros [?|?]|by right].
Qed.

Lemma real_gene_drug_inner (env : environment) (drug_idx : nat)
    (ps : list string) (m0 m : matrix) (g d : nat) :
  foldM
    (λ mat protein,
       match gene2idx env !! protein with
       | None => Ok mat
       | Some gene_idx => setitem_one mat gene_idx drug_idx
       end) ps m0 = Ok m →
  entry m g d = 1%Z ↔
  entry m0 g d = 1%Z ∨
  (d = drug_idx ∧ ∃ p, p ∈ ps ∧ gene2idx env !! p = Some g).
Proof.
  revert m0. induction ps as [|p ps IH]; intros m0; cbn [foldM].
  - intros [= <-]. split; [auto|].
    intros [H|(_ & p & Hp & _)]; [done|]. by apply elem_of_nil in Hp.
  - destruct (gene2idx env !! p) as [gi|] eqn:Hgi.
    + destruct (setitem_one m0 gi drug_idx) as [m1|e] eqn:E1; [|done].
      cbn [mbind result_bind]. apply setitem_one_Ok in E1. subst m1.
      intros Hm. rewrite (IH _ Hm), entry_set_one. split.
      * intros [[[= -> ->]|H]|(-> & p' & Hp' & H)].
        -- right. split; [done|]. exists p. split; [by left|done].
        -- by left.
        -- right. split; [done|]. exists p'. split; [by right|done].
      * intros [H|(-> & p' & Hp' & H)]; [by auto|].
        apply elem_of_cons in Hp' as [->|Hp'].
        -- left. left. congruence.
        -- right. split; [done|]. by exists p'.
    + cbn [mbind result_bind]. intros Hm. rewrite (IH _ Hm). split.
      * intros [H|(-> & p' & Hp' & H)]; [by left|].
        right. split; [done|]. exists p'. split; [by right|done].
      * intros [H|(-> & p' & Hp' & H)]; [by left|].
        apply elem_of_cons in Hp' as [->|Hp']; [congruence|].
        right. split; [done|]. by exists p'.
Qed.

Lemma real_gene_drug_fold (env : environment) (drug2idx : gmap string nat)
    (l : list (string * list string)) (m0 m : matrix) (g d : nat) :
  foldM
    (λ mat dp,
       match drug2idx !! dp.1 with
       | None => Ok mat
       | Some drug_idx =>
           foldM
             (λ mat protein,
                match gene2idx env !! protein with
                | None => Ok mat
                | Some gene_idx => setitem_one mat gene_idx drug_idx
                end)
             dp.2 mat
       end) l m0 = Ok m →
  entry m g d = 1%Z ↔ entry m0 g d = 1%Z ∨ drug_targets env drug2idx l g d.
Proof.
  revert m0. induction l as [|dp l IH]; intros m0; cbn [foldM].
  - intros [= <-]. split; [auto|].
    intros [H|(dp & p & Hdp & _)]; [done|]. by apply elem_of_nil in Hdp.
  - destruct (drug2idx !! dp.1) as [di|] eqn:Hdi.
    + destruct (foldM _ dp.2 m0) as [m1|e] eqn:E1; [|done].
      cbn [mbind result_bind]. intros Hm.
      rewrite (IH _ Hm), (real_gene_drug_inner _ _ _ _ _ g d E1). split.
      * intros [[H|(-> & p & Hp & Hg)]|(dp' & p & Hdp' & H)].
        -- by left.
        -- right. exists dp, p. split; [by left|done].
        -- right. exists dp', p. split; [by right|done].
      * intros [H|(dp' & p & Hdp' & Hp & Hd & Hg)]; [by auto|].
        apply elem_of_cons in Hdp' as [->|Hdp'].
        -- left. right. split; [congruence|]. by exists p.
        -- right. by exists dp', p.
    + cbn [mbind result_bind]. intros Hm. rewrite (IH _ Hm). split.
      * intros [H|(dp' & p & Hdp' & H)]; [by left|].
        right. exists dp', p. split; [by right|done].
      * intros [H|(dp' & p & Hdp' & Hp & Hd & Hg)]; [by left|].
        apply elem_of_cons in Hdp' as [->|Hdp']; [congruence|].
        right. by exists dp', p.
Qed.

End RealContents.

(** X16. Lines 108-110 and 132-147. On the real data the store holds
    one drug-drug matrix per distinct side effect, in the order in which
    the set of side effects is enumerated, and the matrix of a side
    effect has a 1 at [(u, v)] exactly when some record of [drug2se]
    lists that side effect for a combination whose two drugs have the
    indices [u] and [v], in either order. *)
Theorem side_effect_matrices (env : environment) (d : decagon_data) :
  load_decagon_data false env = Ok d →
  ∃ L,
    adj_mats_orig d !! (1, 1) = Some (L ++ L) ∧
    length L = size (unique_se env) ∧
    Forall2
      (λ se m, ∀ u v,
         entry m u v = 1%Z ↔
         side_effect_pair env (enumerate_set (all_drugs env)) se
           (drug2se env) u v)
      (elements (unique_se env)) L.
Proof.
  intros H.
  destruct (load_decagon_data_symmetric false env d H)
    as (raw & Hd & _ & Hsym & _).
  revert H. unfold load_decagon_data, real_data.
  destruct (real_gene_drug _ _ _ _) as [gd|]; [|done].
  cbn [mbind result_bind].
  destruct (mapM _ _) as [dd|] eqn:E; [|done].
  cbn [mbind result_bind].
  set (R := {| n_genes := size (gene2idx env);
               n_drugs := size (enumerate_set (all_drugs env));
               gene_adj := ppi_adj env;
               gene_degrees := sum_axis0 (ppi_adj env);
               gene_drug_adj := gd;
               drug_gene_adj := transpose gd;
               drug_drug_adj_list := dd;
               drug_degrees_list := map sum_axis0 dd |}).
  intros H. assert (Hraw : assemble raw = assemble R) by congruence.
  clear H. apply mapM_Ok_inv in E.
  exists (drug_drug_adj_list raw).
  destruct (assemble_lookups raw) as (_ & _ & _ & _ & Hadj & _).
  destruct (assemble_lookups R) as (_ & _ & _ & _ & Hadj' & _).
  split; [by rewrite Hd, Hadj, (symmetric_transposes _ _ Hsym)|].
  assert (Hdd : drug_drug_adj_list raw = dd).
  { rewrite Hraw, Hadj' in Hadj. cbn [R drug_drug_adj_list] in Hadj.
    assert (Happ : dd ++ map transpose dd
                   = drug_drug_adj_list raw
                     ++ map transpose (drug_drug_adj_list raw))
      by congruence.
    apply (f_equal length) in Happ as Hlen.
    rewrite !length_app, !length_map in Hlen.
    apply app_inj_1 in Happ as [-> _]; [done|lia]. }
  rewrite Hdd. split.
  - apply Forall2_length in E. by rewrite <- E.
  - eapply Forall2_impl; [exact E|].
    intros se m Hm u v.
    exact (real_side_effect_contents env _ _ se m u v Hm).
Qed.

Lemma side_effect_matrices_witness :
  ∃ L,
    adj_mats_orig small_data !! (1, 1) = Some (L ++ L) ∧
    length L = size (unique_se small_env) ∧
    Forall2
      (λ se m, ∀ u v,
         entry m u v = 1%Z ↔
         side_effect_pair small_env (enumerate_set (all_drugs small_env)) se
           (drug2se small_env) u v)
      (elements (unique_se small_env)) L.
Proof.
  apply (side_effect_matrices small_env small_data).
  vm_compute. reflexivity.
Defined.

(** X17. Lines 112-127. On the real data the gene-drug matrix has one
    row per gene and one column per drug, and a 1 at [(g, d)] exactly
    when some record of [drug2proteins] for the drug of index [d] lists a
    protein whose gene has the index [g]; drugs without an index and
    proteins without a gene are skipped.  The drug-gene matrix is its
    transpose. *)
Theorem gene_drug_matrix (env : environment) (d : decagon_data) :
  load_decagon_data false env = Ok d →
  ∃ m,
    adj_mats_orig d !! (0, 1) = Some [m] ∧
    adj_mats_orig d !! (1, 0) = Some [transpose m] ∧
    shape m = (size (gene2idx env), size (all_drugs env)) ∧
    ∀ g dr,
      entry m g dr = 1%Z ↔
      drug_targets env (enumerate_set (all_drugs env))
        (drug2proteins env) g dr.
Proof.
  unfold load_decagon_data, real_data.
  pose proof (real_gene_drug_outcome env (size (gene2idx env))
                (size (enumerate_set (all_drugs env)))
                (enumerate_set (all_drugs env))) as Hshape.
  destruct (real_gene_drug _ _ _ _) as [gd|] eqn:G; [|done].
  cbn [mbind result_bind].
  destruct (mapM _ _) as [dd|]; [|done].
  cbn [mbind result_bind].
  set (R := {| n_genes := size (gene2idx env);
               n_drugs := size (enumerate_set (all_drugs env));
               gene_adj := ppi_adj env;
               gene_degrees := sum_axis0 (ppi_adj env);
               gene_drug_adj := gd;
               drug_gene_adj := transpose gd;
               drug_drug_adj_list := dd;
               drug_degrees_list := map sum_axis0 dd |}).
  intros H. assert (Hd : d = assemble R) by congruence. clear H.
  destruct (assemble_lookups R) as (_ & _ & _ & _ & _ & _ & H01 & H10).
  exists gd. rewrite Hd.
  split; [exact H01|]. split; [exact H10|]. split.
  - by rewrite Hshape, enumerate_set_size.
  - intros g dr. unfold real_gene_drug in G.
    rewrite (real_gene_drug_fold _ _ _ _ _ g dr G), entry_zeros.
    split; [by intros [?|?]|by right].
Qed.

Lemma gene_drug_matrix_witness :
  ∃ m,
    adj_mats_orig small_data !! (0, 1) = Some [m] ∧
    adj_mats_orig small_data !! (1, 0) = Some [transpose m] ∧
    shape m = (size (gene2idx small_env), size (all_drugs small_env)) ∧
    ∀ g dr,
      entry m g dr = 1%Z ↔
      drug_targets small_env (enumerate_set (all_drugs small_env))
        (drug2proteins small_env) g dr.
Proof.
  apply (gene_drug_matrix small_env small_data).
  vm_compute. reflexivity.
Defined.

(** ** When the evaluator returns *)

Lemma roc_auc_score_Ok_inv (a b : nat) (qs : list Q) (roc : Q) :
  roc_auc_score (replicate a true ++ replicate b false) qs = Ok roc →
  0 < a ∧ 0 < b.
Proof.
  unfold roc_auc_score. rewrite count_label_true, count_label_false.
  destruct (0 <? a) eqn:Ha; [|done].
  destruct (0 <? b) eqn:Hb; [|done].
  intros _. by apply Nat.ltb_lt in Ha, Hb.
Qed.

Section EvaluatorReturns.
  Context {F : Type} (sigmoid : F → score).
  Context (apk : list nat → list nat → nat → Q).
  Context (sess_run : gmap string value → result (nat → nat → option F)).
  Context (edge_type2idx : gmap (nat * nat * nat) nat).
  Context (adj_mats : gmap (nat * nat) (list matrix)).

Lemma scored_is_Some (rec : nat → nat → option F) (l : list (nat * nat))
    (ss : list score) :
  Forall2 (scored sigmoid rec) l ss →
  Forall (λ uv, is_Some (rec uv.1 uv.2)) l.
Proof.
  induction 1 as [|uv s l ss (x & Hx & _) _ IH]; constructor; [|done].
  by exists x.
Qed.

(** X18. Lines 199-241. The call returns its three metrics exactly when
    the relation has an index, the model returns its scores, both edge
    lists exist for the relation and are not empty, every listed pair
    has a score, every positive reads 1 and every negative reads 0 in
    the adjacency matrix of the relation; in every other case it
    raises. *)
Theorem evaluation_returns_iff (feed_dict : gmap string value)
    (edges_pos edges_neg : edge_lists) (edge_type : nat * nat * nat) :
  (∃ m, (get_accuracy_scores sigmoid apk sess_run edge_type2idx adj_mats
           feed_dict edges_pos edges_neg edge_type).2 = Ok m) ↔
  ∃ idx rec pos neg,
    edge_type2idx !! edge_type = Some idx ∧
    sess_run (evaluation_feed feed_dict edge_type idx) = Ok rec ∧
    edges_get edges_pos edge_type = Ok pos ∧
    edges_get edges_neg edge_type = Ok neg ∧
    pos ≠ [] ∧ neg ≠ [] ∧
    Forall (λ uv, is_Some (rec uv.1 uv.2) ∧
                  adj_get adj_mats edge_type uv.1 uv.2 = Ok 1%Z) pos ∧
    Forall (λ uv, is_Some (rec uv.1 uv.2) ∧
                  adj_get adj_mats edge_type uv.1 uv.2 = Ok 0%Z) neg.
Proof.
  split.
  - intros [[[roc aupr] apk_sc] Hm].
    apply get_accuracy_scores_iff in Hm as (idx & rec & Hidx & Hrec & Hm).
    apply score_edges_iff in Hm
      as (pos & neg & ps & ns & Hpos & Hneg & Hps & Hns & Hp & Hn & Hm).
    apply metrics_of_inv in Hm as (_ & Hroc & _).
    rewrite labels_all_tally_of in Hroc.
    apply roc_auc_score_Ok_inv in Hroc as [Ha Hb].
    rewrite <- (Forall2_length _ _ _ Hps) in Ha.
    rewrite <- (Forall2_length _ _ _ Hns) in Hb.
    exists idx, rec, pos, neg. do 4 (split; [done|]).
    split; [intros ->; cbn in Ha; lia|].
    split; [intros ->; cbn in Hb; lia|]. split.
    + apply Forall_and. split; [by eapply scored_is_Some|done].
    + apply Forall_and. split; [by eapply scored_is_Some|done].
  - intros (idx & rec & pos & neg & Hidx & Hrec & Hpos & Hneg
            & Hpne & Hnne & Hp & Hn).
    apply Forall_and in Hp as [Hps Hp]. apply Forall_and in Hn as [Hns Hn].
    destruct (scored_total sigmoid rec pos Hps) as [ps Hps'].
    destruct (scored_total sigmoid rec neg Hns) as [ns Hns'].
    pose proof (Forall2_length _ _ _ Hps') as Hlp.
    pose proof (Forall2_length _ _ _ Hns') as Hln.
    destruct (roc_auc_score_defined (length ps) (length ns)
                (preds_all (tally_of ps ns))) as [roc Hroc].
    { rewrite <- Hlp. destruct pos; [done|cbn; lia]. }
    { rewrite <- Hln. destruct neg; [done|cbn; lia]. }
    rewrite <- labels_all_tally_of in Hroc.
    eexists. eapply get_accuracy_scores_returns; eauto.
    destruct ps; [by destruct pos|done].
Qed.

End EvaluatorReturns.

(** ** The ranking with a NaN score *)


(** ** Average precision in doubles *)


(** On the example of the specification the doubles give exactly 1.0. *)
Example example_average_precision_is_one :
  let t := tally_of [Fin (9 # 10); Fin (8 # 10)]
                    [Fin (1 # 10); Fin (2 # 10)] in
  average_precision_score_binary64 (labels_all t) (preds_all t)
  = Binary64.one.
Proof. vm_compute. reflexivity. Qed.
